(** * really-wrapped: listening-history reports over a document collection

    A model of [really-wrapped.mts].  The script keeps its play records in
    the collection [imported_plays] of a document store and computes eight
    leaderboards and two scalar summaries with aggregation pipelines.

    - the collection is a list of documents in natural (insertion) order;
    - a pipeline stage is a function from lists of documents to lists of
      documents, and a pipeline is the composition of its stages;
    - a number of the store is the rational it denotes: integers are
      exact, [$divide] gives the nearest binary64 double, [$round] rounds
      that double half to even;
    - where the store leaves the order of documents with equal sort keys
      open, the order is a parameter of the model ([Mongo.TieBreak]);
    - JavaScript exceptions are the [Throw] case of [result];
    - the importer and the top-level script run in a small state and
      exception monad over the directory, the collection and the console. *)

From Stdlib Require Import ZArith QArith Qround Qpower Qabs.
From Stdlib Require Import List String Ascii Bool Lia Lqa.
From Stdlib Require Import Permutation Sorted.
Import ListNotations.
Set Warnings "-register-all".
Open Scope string_scope.
Open Scope list_scope.
Open Scope Z_scope.

(** ** JavaScript values and outcomes *)

Module JS.

Inductive Error : Type :=
| TypeError      (* property access on undefined or null *)
| SyntaxError    (* JSON.parse on a malformed text *)
| SystemError.   (* a failing node:fs call *)

Inductive result (A : Type) : Type :=
| Ok (a : A)
| Throw (e : Error).
Arguments Ok {A} a.
Arguments Throw {A} e.

(** The values [JSON.parse] can return, and [undefined]. *)
Inductive value : Type :=
| Undefined
| Null
| Boolean (b : bool)
| Number (n : Z)
| Str (s : string)
| Array (items : list value)
| Object (fields : list (string * value)).

Fixpoint lookup (name : string) (fields : list (string * value)) : value :=
  match fields with
  | [] => Undefined
  | (k, v) :: rest => if String.eqb k name then v else lookup name rest
  end.

(** [v.length] *)
Definition length_of (v : value) : result value :=
  match v with
  | Undefined | Null => Throw TypeError
  | Boolean _ | Number _ => Ok Undefined
  | Str s => Ok (Number (Z.of_nat (String.length s)))
  | Array items => Ok (Number (Z.of_nat (List.length items)))
  | Object fields => Ok (lookup "length" fields)
  end.

(** [v === 0] *)
Definition strict_eq_zero (v : value) : bool :=
  match v with
  | Number n => n =? 0
  | _ => false
  end.

(** [file.includes(sub)] *)
Fixpoint includes (sub s : string) : bool :=
  if String.prefix sub s then true
  else match s with
       | EmptyString => false
       | String _ rest => includes sub rest
       end.

(** [file.endsWith(suffix)] *)
Definition endsWith (suffix s : string) : bool :=
  let n := String.length s in
  let m := String.length suffix in
  (m <=? n)%nat && String.eqb (String.substring (n - m) m s) suffix.

(** [new Date(text).getTime()] for a UTC calendar date at midnight:
    milliseconds since the epoch. *)
Definition days_from_civil (y m d : Z) : Z :=
  let y' := if m <=? 2 then y - 1 else y in
  let era := y' / 400 in
  let yoe := y' - era * 400 in
  let mp := if m >? 2 then m - 3 else m + 9 in
  let doy := (153 * mp + 2) / 5 + d - 1 in
  let doe := yoe * 365 + yoe / 4 - yoe / 100 + doy in
  era * 146097 + doe - 719468.

Definition Date_UTC (y m d : Z) : Z := days_from_civil y m d * 86400000.

End JS.

Import JS.

(** ** The stored documents *)

(** One document of [imported_plays]: the fields of [PlayRecord], with [ts]
    held as a date (milliseconds since the epoch, as the store compares
    it).  The three episode fields have type [null] and carry nothing. *)
Record PlayRecord : Type := {
  ts : Z;
  platform : string;
  ms_played : Z;
  conn_country : string;
  ip_addr : string;
  master_metadata_track_name : string;
  master_metadata_album_artist_name : string;
  master_metadata_album_album_name : string;
  spotify_track_uri : string;
  reason_start : string;
  reason_end : string;
  shuffle : bool;
  skipped : bool;
  offline : bool;
  offline_timestamp : Z;
  incognito_mode : bool
}.

Definition Collection : Type := list PlayRecord.

(** ** The aggregation operators of the store *)

Module Mongo.

(** Nearest integer, a value half way between two integers going to the
    even one: the rounding of binary64 arithmetic and of the store's
    [$round]. *)
Definition half_even (x : Q) : Z :=
  let f := Qfloor x in
  match Qcompare (x - inject_Z f) (1 # 2) with
  | Lt => f
  | Gt => f + 1
  | Eq => if Z.even f then f else f + 1
  end.

(** The store's numbers are binary64 doubles; the model holds a double as
    the rational it denotes.  [ilog2 q] is the exponent of a positive
    [q]: [2 ^ ilog2 q <= q < 2 ^ (ilog2 q + 1)]. *)
Definition ilog2 (q : Q) : Z :=
  let c := Z.log2 (Qnum q) - Z.log2 (Zpos (Qden q)) in
  if Qle_bool ((2 ^ c)%Q) q then c else c - 1.

(** The double nearest to [q]: 53 significant bits, a value half way
    between two doubles going to the one with the even significand.  The
    exponent is not bounded: the quotient of two 64-bit integers lies
    within the normal range of binary64. *)
Definition binary64 (q : Q) : Q :=
  match Qcompare q 0 with
  | Eq => 0%Q
  | Gt => let e := ilog2 q - 52 in
          (inject_Z (half_even (q / 2 ^ e)) * 2 ^ e)%Q
  | Lt => let e := ilog2 (- q) - 52 in
          (- (inject_Z (half_even (- q / 2 ^ e)) * 2 ^ e))%Q
  end.

(** An integer taken as a double. *)
Definition toDouble (z : Z) : Q := binary64 (inject_Z z).

(** [$divide: [a, b]] of two integers: the double quotient of the two
    operands taken as doubles.  (The store refuses a zero divisor; the
    script divides by 60000 and 3600000.) *)
Definition divide (a b : Z) : Q := binary64 (toDouble a / toDouble b).

(** [$round: [x, place]] of a double, for [0 <= place]: the exact value of
    the double is rounded to a multiple of [10^-place], half way going to
    the even multiple.  The store hands back the double nearest to that
    decimal, which JavaScript prints as the decimal itself (up to 15
    significant digits); the model keeps the decimal. *)
Definition round (x : Q) (place : Z) : Q :=
  let s := 10 ^ place in
  Qmake (half_even (x * inject_Z s)) (Z.to_pos s).

(** [$dateToString] with format ["%Y-%m-%d"], in UTC. *)
Definition civil_from_days (z : Z) : Z * Z * Z :=
  let z := z + 719468 in
  let era := z / 146097 in
  let doe := z - era * 146097 in
  let yoe := (doe - doe / 1460 + doe / 36524 - doe / 146096) / 365 in
  let y := yoe + era * 400 in
  let doy := doe - (365 * yoe + yoe / 4 - yoe / 100) in
  let mp := (5 * doy + 2) / 153 in
  let d := doy - (153 * mp + 2) / 5 + 1 in
  let m := if mp <? 10 then mp + 3 else mp - 9 in
  (if m <=? 2 then y + 1 else y, m, d).

Definition digit (n : Z) : ascii := ascii_of_nat (48 + Z.to_nat (n mod 10)).

Definition pad2 (n : Z) : string :=
  String (digit (n / 10)) (String (digit n) "").

Definition pad4 (n : Z) : string :=
  String (digit (n / 1000)) (String (digit (n / 100)) (pad2 n)).

Definition dateToString (date : Z) : string :=
  let '(y, m, d) := civil_from_days (date / 86400000) in
  (pad4 y ++ "-" ++ pad2 m ++ "-" ++ pad2 d)%string.

(** The query document of a [$match] stage, in the shape the script
    uses: an equality on a boolean, a lower bound, an exclusion list and
    a half-open date range. *)
Record Query : Type := {
  q_incognito_mode : bool;
  q_ms_played_gte : Z;
  q_spotify_track_uri_nin : list string;
  q_ts_gte : Z;
  q_ts_lt : Z
}.

Definition matches (q : Query) (d : PlayRecord) : bool :=
  Bool.eqb (incognito_mode d) (q_incognito_mode q)
  && (q_ms_played_gte q <=? ms_played d)
  && negb (existsb (String.eqb (spotify_track_uri d)) (q_spotify_track_uri_nin q))
  && (q_ts_gte q <=? ts d)
  && (ts d <? q_ts_lt q).

Definition match_ (q : Query) (docs : Collection) : Collection :=
  List.filter (matches q) docs.

(** [$group]: the documents are put into one bucket per value of the
    [_id] expression, buckets in the order their first document is met
    and documents within a bucket in input order; the accumulators are
    then evaluated on each bucket. *)
Section Group.
Context {D K : Type}.
Variable eqb : K -> K -> bool.
Variable key : D -> K.

Record Bucket : Type := {
  bucket_id : K;
  bucket_first : D;
  bucket_rest : list D
}.

Definition bucket_docs (b : Bucket) : list D :=
  bucket_first b :: bucket_rest b.

Fixpoint add_to_bucket (d : D) (bs : list Bucket) : list Bucket :=
  match bs with
  | [] => [ {| bucket_id := key d; bucket_first := d; bucket_rest := [] |} ]
  | b :: bs' =>
      if eqb (bucket_id b) (key d)
      then {| bucket_id := bucket_id b;
              bucket_first := bucket_first b;
              bucket_rest := bucket_rest b ++ [d] |} :: bs'
      else b :: add_to_bucket d bs'
  end.

Definition buckets (docs : list D) : list Bucket :=
  fold_left (fun bs d => add_to_bucket d bs) docs [].

Definition group {G : Type} (accumulate : Bucket -> G) (docs : list D)
  : list G :=
  map accumulate (buckets docs).

  (** [$sum: expr] *)
Definition sum (f : D -> Z) (b : Bucket) : Z :=
  fold_left (fun acc d => acc + f d) (bucket_docs b) 0.

  (** [$first: expr] *)
Definition first {V : Type} (f : D -> V) (b : Bucket) : V :=
  f (bucket_first b).
End Group.

Arguments Bucket D K : clear implicits.

(** The store's choice between two documents with equal sort keys:
    [tie_break A x y] tells whether [x] goes before [y].  The script
    gives one sort key and the store leaves the order of documents with
    equal keys open, so every sort takes this choice as a parameter. *)
Class TieBreak : Type := tie_break : forall A : Type, A -> A -> bool.

(** [$sort: { field: -1 }]: descending on one field, documents with equal
    keys in the order the store chooses. *)
Section Sort.
Context {TB : TieBreak} {A T : Type}.
Variable leb : T -> T -> bool.
Variable field : A -> T.

(** [x] goes before [y] when its key is larger, or equal and the store
    says so. *)
Definition goes_before (x y : A) : bool :=
  if leb (field y) (field x)
  then if leb (field x) (field y) then tie_break A x y else true
  else false.

Fixpoint insert_desc (x : A) (l : list A) : list A :=
  match l with
  | [] => [x]
  | y :: l' =>
      if goes_before x y then x :: y :: l'
      else y :: insert_desc x l'
  end.

Definition sort_desc (l : list A) : list A :=
  fold_right insert_desc [] l.
End Sort.

(** [$project] *)
Definition project {A B : Type} (f : A -> B) (l : list A) : list B :=
  map f l.

(** [$count: name]: one document holding the number of input documents,
    and no document at all for an empty input. *)
Definition count {A : Type} (l : list A) : list Z :=
  match l with
  | [] => []
  | _ :: _ => [Z.of_nat (List.length l)]
  end.

(** [cursor.limit(n)] *)
Definition limit {A : Type} (n : nat) (l : list A) : list A := firstn n l.

End Mongo.

(** ** The report filter and the ten reports *)

Definition filter : Mongo.Query :=
  {| Mongo.q_incognito_mode := false;
     Mongo.q_ms_played_gte := 30000;
     Mongo.q_spotify_track_uri_nin := ["spotify:track:1PZoHdDM71mzOFW1T6H03y"];
     Mongo.q_ts_gte := Date_UTC 2024 1 1;
     Mongo.q_ts_lt := Date_UTC 2025 1 1 |}.

(** [getTopTracksByPlayTime]: match, group by track, sort on the
    millisecond total, project the rounded minutes and hours, limit 10 *)
Module TopTracksByPlayTime.

Module G.
Record doc : Type := {
  _id : string;
  total_ms_played : Z;
  track_name : string;
  artist_name : string;
  album_name : string
}.
End G.

Module R.
Record doc : Type := {
  _id : string;
  track_name : string;
  artist_name : string;
  total_mins_played : Q;
  total_hours : Q
}.
End R.

Definition group_stage (b : Mongo.Bucket PlayRecord string) : G.doc :=
  {| G._id := Mongo.bucket_id b;
     G.total_ms_played := Mongo.sum ms_played b;
     G.track_name := Mongo.first master_metadata_track_name b;
     G.artist_name := Mongo.first master_metadata_album_artist_name b;
     G.album_name := Mongo.first master_metadata_album_album_name b |}.

Definition project_stage (g : G.doc) : R.doc :=
  {| R._id := G._id g;
     R.track_name := G.track_name g;
     R.artist_name := G.artist_name g;
     R.total_mins_played :=
         Mongo.round (Mongo.divide (G.total_ms_played g) 60000) 2;
     R.total_hours :=
         Mongo.round (Mongo.divide (G.total_ms_played g) 3600000) 2 |}.

Definition grouped (db : Collection) : list G.doc :=
  Mongo.group String.eqb spotify_track_uri group_stage (Mongo.match_ filter db).

Definition sorted {TB : Mongo.TieBreak} (db : Collection) : list G.doc :=
  Mongo.sort_desc Z.leb G.total_ms_played (grouped db).

Definition aggregate {TB : Mongo.TieBreak} (db : Collection) : list R.doc :=
  Mongo.project project_stage (sorted db).

End TopTracksByPlayTime.

Definition getTopTracksByPlayTime {TB : Mongo.TieBreak} (db : Collection)
  : list TopTracksByPlayTime.R.doc :=
  Mongo.limit 10 (TopTracksByPlayTime.aggregate db).

(** [getTopTracksByPlayCount] *)
Module TopTracksByPlayCount.

Module G.
Record doc : Type := {
  _id : string;
  total_play_count : Z;
  track_name : string;
  artist_name : string
}.
End G.

Definition group_stage (b : Mongo.Bucket PlayRecord string) : G.doc :=
  {| G._id := Mongo.bucket_id b;
     G.total_play_count := Mongo.sum (fun _ => 1) b;
     G.track_name := Mongo.first master_metadata_track_name b;
     G.artist_name := Mongo.first master_metadata_album_artist_name b |}.

Definition grouped (db : Collection) : list G.doc :=
  Mongo.group String.eqb spotify_track_uri group_stage (Mongo.match_ filter db).

Definition sorted {TB : Mongo.TieBreak} (db : Collection) : list G.doc :=
  Mongo.sort_desc Z.leb G.total_play_count (grouped db).

Definition aggregate {TB : Mongo.TieBreak} (db : Collection) : list G.doc :=
  sorted db.

End TopTracksByPlayCount.

Definition getTopTracksByPlayCount {TB : Mongo.TieBreak} (db : Collection)
  : list TopTracksByPlayCount.G.doc :=
  Mongo.limit 10 (TopTracksByPlayCount.aggregate db).

(** [getTopAlbumsByPlayTime]: here the projection comes before the
    sort, and the sort is on the rounded minutes *)
Module TopAlbumsByPlayTime.

Module G.
Record doc : Type := {
  _id : string;
  total_play_time : Z;
  total_track_plays_from_album_count : Z;
  artist_name : string
}.
End G.

Module R.
Record doc : Type := {
  _id : string;
  artist_name : string;
  total_play_time_mins : Q;
  total_play_time_hours : Q
}.
End R.

Definition group_stage (b : Mongo.Bucket PlayRecord string) : G.doc :=
  {| G._id := Mongo.bucket_id b;
     G.total_play_time := Mongo.sum ms_played b;
     G.total_track_plays_from_album_count := Mongo.sum (fun _ => 1) b;
     G.artist_name := Mongo.first master_metadata_album_artist_name b |}.

Definition project_stage (g : G.doc) : R.doc :=
  {| R._id := G._id g;
     R.artist_name := G.artist_name g;
     R.total_play_time_mins :=
         Mongo.round (Mongo.divide (G.total_play_time g) 60000) 2;
     R.total_play_time_hours :=
         Mongo.round (Mongo.divide (G.total_play_time g) 3600000) 2 |}.

Definition grouped (db : Collection) : list G.doc :=
  Mongo.group String.eqb master_metadata_album_album_name group_stage
    (Mongo.match_ filter db).

Definition projected (db : Collection) : list R.doc :=
  Mongo.project project_stage (grouped db).

Definition aggregate {TB : Mongo.TieBreak} (db : Collection) : list R.doc :=
  Mongo.sort_desc Qle_bool R.total_play_time_mins (projected db).

End TopAlbumsByPlayTime.

Definition getTopAlbumsByPlayTime {TB : Mongo.TieBreak} (db : Collection)
  : list TopAlbumsByPlayTime.R.doc :=
  Mongo.limit 10 (TopAlbumsByPlayTime.aggregate db).

(** [getTopAlbumsByPlayCount] *)
Module TopAlbumsByPlayCount.

Module G.
Record doc : Type := {
  _id : string;
  total_play_time : Z;
  total_track_plays_from_album_count : Z;
  artist_name : string
}.
End G.

Definition group_stage (b : Mongo.Bucket PlayRecord string) : G.doc :=
  {| G._id := Mongo.bucket_id b;
     G.total_play_time := Mongo.sum ms_played b;
     G.total_track_plays_from_album_count := Mongo.sum (fun _ => 1) b;
     G.artist_name := Mongo.first master_metadata_album_artist_name b |}.

Definition grouped (db : Collection) : list G.doc :=
  Mongo.group String.eqb master_metadata_album_album_name group_stage
    (Mongo.match_ filter db).

Definition sorted {TB : Mongo.TieBreak} (db : Collection) : list G.doc :=
  Mongo.sort_desc Z.leb G.total_track_plays_from_album_count (grouped db).

Definition aggregate {TB : Mongo.TieBreak} (db : Collection) : list G.doc :=
  sorted db.

End TopAlbumsByPlayCount.

Definition getTopAlbumsByPlayCount {TB : Mongo.TieBreak} (db : Collection)
  : list TopAlbumsByPlayCount.G.doc :=
  Mongo.limit 10 (TopAlbumsByPlayCount.aggregate db).

(** [getTopArtistsByPlayTime]: the projection asks for [artist_name],
    a field the groups do not have, so the rows carry none *)
Module TopArtistsByPlayTime.

Module G.
Record doc : Type := {
  _id : string;
  total_play_time : Z
}.
End G.

Module R.
Record doc : Type := {
  _id : string;
  total_play_time_mins : Q;
  total_play_time_hours : Q
}.
End R.

Definition group_stage (b : Mongo.Bucket PlayRecord string) : G.doc :=
  {| G._id := Mongo.bucket_id b;
     G.total_play_time := Mongo.sum ms_played b |}.

Definition project_stage (g : G.doc) : R.doc :=
  {| R._id := G._id g;
     R.total_play_time_mins :=
         Mongo.round (Mongo.divide (G.total_play_time g) 60000) 2;
     R.total_play_time_hours :=
         Mongo.round (Mongo.divide (G.total_play_time g) 3600000) 2 |}.

Definition grouped (db : Collection) : list G.doc :=
  Mongo.group String.eqb master_metadata_album_artist_name group_stage
    (Mongo.match_ filter db).

Definition sorted {TB : Mongo.TieBreak} (db : Collection) : list G.doc :=
  Mongo.sort_desc Z.leb G.total_play_time (grouped db).

Definition aggregate {TB : Mongo.TieBreak} (db : Collection) : list R.doc :=
  Mongo.project project_stage (sorted db).

End TopArtistsByPlayTime.

Definition getTopArtistsByPlayTime {TB : Mongo.TieBreak} (db : Collection)
  : list TopArtistsByPlayTime.R.doc :=
  Mongo.limit 10 (TopArtistsByPlayTime.aggregate db).

(** [getTopArtistsByPlayCount] *)
Module TopArtistsByPlayCount.

Module G.
Record doc : Type := {
  _id : string;
  total_play_count : Z
}.
End G.

Definition group_stage (b : Mongo.Bucket PlayRecord string) : G.doc :=
  {| G._id := Mongo.bucket_id b;
     G.total_play_count := Mongo.sum (fun _ => 1) b |}.

Definition grouped (db : Collection) : list G.doc :=
  Mongo.group String.eqb master_metadata_album_artist_name group_stage
    (Mongo.match_ filter db).

Definition sorted {TB : Mongo.TieBreak} (db : Collection) : list G.doc :=
  Mongo.sort_desc Z.leb G.total_play_count (grouped db).

Definition aggregate {TB : Mongo.TieBreak} (db : Collection) : list G.doc :=
  sorted db.

End TopArtistsByPlayCount.

Definition getTopArtistsByPlayCount {TB : Mongo.TieBreak} (db : Collection)
  : list TopArtistsByPlayCount.G.doc :=
  Mongo.limit 10 (TopArtistsByPlayCount.aggregate db).

(** [getTopDaysByPlayTime] *)
Module TopDaysByPlayTime.

Module G.
Record doc : Type := {
  _id : string;
  total_play_time : Z
}.
End G.

Module R.
Record doc : Type := {
  _id : string;
  total_play_time_mins : Q;
  total_play_time_hours : Q
}.
End R.

Definition group_stage (b : Mongo.Bucket PlayRecord string) : G.doc :=
  {| G._id := Mongo.bucket_id b;
     G.total_play_time := Mongo.sum ms_played b |}.

Definition project_stage (g : G.doc) : R.doc :=
  {| R._id := G._id g;
     R.total_play_time_mins :=
         Mongo.round (Mongo.divide (G.total_play_time g) 60000) 2;
     R.total_play_time_hours :=
         Mongo.round (Mongo.divide (G.total_play_time g) 3600000) 2 |}.

Definition grouped (db : Collection) : list G.doc :=
  Mongo.group String.eqb (fun d => Mongo.dateToString (ts d)) group_stage
    (Mongo.match_ filter db).

Definition sorted {TB : Mongo.TieBreak} (db : Collection) : list G.doc :=
  Mongo.sort_desc Z.leb G.total_play_time (grouped db).

Definition aggregate {TB : Mongo.TieBreak} (db : Collection) : list R.doc :=
  Mongo.project project_stage (sorted db).

End TopDaysByPlayTime.

Definition getTopDaysByPlayTime {TB : Mongo.TieBreak} (db : Collection)
  : list TopDaysByPlayTime.R.doc :=
  Mongo.limit 10 (TopDaysByPlayTime.aggregate db).

(** [getTopDaysByPlayCount] *)
Module TopDaysByPlayCount.

Module G.
Record doc : Type := {
  _id : string;
  total_play_count : Z
}.
End G.

Definition group_stage (b : Mongo.Bucket PlayRecord string) : G.doc :=
  {| G._id := Mongo.bucket_id b;
     G.total_play_count := Mongo.sum (fun _ => 1) b |}.

Definition project_stage (g : G.doc) : G.doc :=
  {| G._id := G._id g;
     G.total_play_count := G.total_play_count g |}.

Definition grouped (db : Collection) : list G.doc :=
  Mongo.group String.eqb (fun d => Mongo.dateToString (ts d)) group_stage
    (Mongo.match_ filter db).

Definition sorted {TB : Mongo.TieBreak} (db : Collection) : list G.doc :=
  Mongo.sort_desc Z.leb G.total_play_count (grouped db).

Definition aggregate {TB : Mongo.TieBreak} (db : Collection) : list G.doc :=
  Mongo.project project_stage (sorted db).

End TopDaysByPlayCount.

Definition getTopDaysByPlayCount {TB : Mongo.TieBreak} (db : Collection)
  : list TopDaysByPlayCount.G.doc :=
  Mongo.limit 10 (TopDaysByPlayCount.aggregate db).

(** [getTotalMinsPlayed]: one group for the whole filtered set ([_id: null]);
    the script takes the first row of the result and reads its field. *)
Module TotalMinsPlayed.

Module G.
Record doc : Type := {
  _id : unit;
  total_ms_played : Z
}.
End G.

Module R.
Record doc : Type := {
  _id : unit;
  total_mins_played : Q
}.
End R.

Definition group_stage (b : Mongo.Bucket PlayRecord unit) : G.doc :=
  {| G._id := Mongo.bucket_id b;
     G.total_ms_played := Mongo.sum ms_played b |}.

Definition project_stage (g : G.doc) : R.doc :=
  {| R._id := G._id g;
     R.total_mins_played :=
         Mongo.round (Mongo.divide (G.total_ms_played g) 60000) 2 |}.

Definition grouped (db : Collection) : list G.doc :=
  Mongo.group (fun _ _ => true) (fun _ => tt) group_stage
    (Mongo.match_ filter db).

Definition aggregate (db : Collection) : list R.doc :=
  Mongo.project project_stage (grouped db).

End TotalMinsPlayed.

Definition getTotalMinsPlayed (db : Collection) : result Q :=
  match TotalMinsPlayed.aggregate db with
  | [] => Throw TypeError
  | r :: _ => Ok (TotalMinsPlayed.R.total_mins_played r)
  end.

(** [getTotalUniqueTracksPlayed]: one group per track, then [$count]. *)
Module TotalUniqueTracksPlayed.

Module G.
Record doc : Type := {
  _id : string
}.
End G.

Module R.
Record doc : Type := {
  unique_tracks_played : Z
}.
End R.

Definition group_stage (b : Mongo.Bucket PlayRecord string) : G.doc :=
  {| G._id := Mongo.bucket_id b |}.

Definition grouped (db : Collection) : list G.doc :=
  Mongo.group String.eqb spotify_track_uri group_stage (Mongo.match_ filter db).

Definition aggregate (db : Collection) : list R.doc :=
  map R.Build_doc (Mongo.count (grouped db)).

End TotalUniqueTracksPlayed.

Definition getTotalUniqueTracksPlayed (db : Collection) : result Z :=
  match TotalUniqueTracksPlayed.aggregate db with
  | [] => Throw TypeError
  | r :: _ => Ok (TotalUniqueTracksPlayed.R.unique_tracks_played r)
  end.

(** ** The directory, the console and the script's monad *)

(** An entry of [./spotify_extended_play_history]. *)
Inductive Node : Type :=
| Directory
| File (contents : string)
| Unreadable.

Inductive Style : Type :=
| Plain | BgGreen | BgBlue | Gold | BlackOnSilver | Bronze.

(** The parts of a logged line: the arguments of [console.log], or the
    literal and substituted parts of a template string. *)
Inductive Piece : Type :=
| Text (s : string)
| Val (v : JS.value)
| Num (q : Q)
| Int (n : Z)
| Bold (p : Piece).

Record Line : Type := {
  style : Style;
  pieces : list Piece
}.

(** What the script reads and writes.  [dir] is the listing of the
    history directory ([None]: there is no such directory). *)
Record World : Type := {
  dir : option (list (string * Node));
  imported_plays : Collection;
  console : list Line
}.

Definition M (A : Type) : Type := World -> result A * World.

Definition ret {A : Type} (a : A) : M A := fun w => (Ok a, w).

Definition throw {A : Type} (e : Error) : M A := fun w => (Throw e, w).

Definition bind {A B : Type} (m : M A) (k : A -> M B) : M B :=
  fun w =>
    match m w with
    | (Ok a, w') => k a w'
    | (Throw e, w') => (Throw e, w')
    end.

Notation "x <- m ;; k" := (bind m (fun x => k))
  (at level 61, m at next level, right associativity).
Notation "m ;; k" := (bind m (fun _ => k))
  (at level 61, right associativity).

Definition lift {A : Type} (r : result A) : M A := fun w => (r, w).

(** [await report()]: a query on the collection as it stands. *)
Definition query {A : Type} (report : Collection -> A) : M A :=
  fun w => (Ok (report (imported_plays w)), w).

Definition console_log (s : Style) (ps : list Piece) : M unit :=
  fun w =>
    (Ok tt,
     {| dir := dir w;
        imported_plays := imported_plays w;
        console := console w ++ [ {| style := s; pieces := ps |} ] |}).

Fixpoint for_of {A : Type} (body : A -> M unit) (l : list A) : M unit :=
  match l with
  | [] => ret tt
  | x :: rest => body x ;; for_of body rest
  end.

Definition newline : string := String (ascii_of_nat 10) "".

(** ** [importPlays] *)

Definition readdirSync : M (list (string * Node)) :=
  fun w =>
    match dir w with
    | Some entries => (Ok entries, w)
    | None => (Throw SystemError, w)
    end.

(** [lstatSync(filePath).isDirectory()] *)
Definition isDirectory (n : Node) : bool :=
  match n with
  | Directory => true
  | _ => false
  end.

Definition readFileSync (n : Node) : result string :=
  match n with
  | File contents => Ok contents
  | Directory | Unreadable => Throw SystemError
  end.

Section Importer.

(** [JSON.parse]: [None] stands for the [SyntaxError] it throws. *)
Variable JSON_parse : string -> option JS.value.

Definition parse (text : string) : result JS.value :=
  match JSON_parse text with
  | Some v => Ok v
  | None => Throw SyntaxError
  end.

(** The body of the loop; each [continue] ends it.  The call of
    [insertMany] is commented out in the script, so the last step is the
    log line before it. *)
Definition import_file (entry : string * Node) : M unit :=
  let (file, node) := entry in
  if negb (endsWith ".json" file) || negb (includes "Audio" file)
     || isDirectory node
  then console_log Plain [Text "skipping invalid file"; Text file]
  else
    console_log Plain [Text "processing file"; Text file] ;;
    fileContents <- lift (readFileSync node) ;;
    if String.eqb fileContents ""
    then console_log Plain [Text "skipping empty file"; Text file]
    else
      plays <- lift (parse fileContents) ;;
      len <- lift (length_of plays) ;;
      if strict_eq_zero len
      then console_log Plain [Text "skipping, no records"; Text file]
      else
        len' <- lift (length_of plays) ;;
        console_log Plain [Text "inserting records"; Val len'].

Definition importPlays : M unit :=
  files <- readdirSync ;;
  for_of import_file files.

End Importer.

(** ** [logSeries] and the top-level script *)

Definition rank_style (rank : Z) : Style :=
  match rank with
  | 1 => Gold
  | 2 => BlackOnSilver
  | 3 => Bronze
  | _ => Plain
  end.

(** [records.forEach((r, idx) => ...)] from index [idx] on. *)
Fixpoint log_ranked {R : Type} (fmt : R -> list Piece) (idx : Z)
  (records : list R) : M unit :=
  match records with
  | [] => ret tt
  | r :: rest =>
      let rank := idx + 1 in
      console_log (rank_style rank) (Int rank :: Text ". " :: fmt r) ;;
      log_ranked fmt (idx + 1) rest
  end.

Definition logSeries {R : Type} (title : string) (records : list R)
  (fmt : R -> list Piece) : M unit :=
  console_log BgBlue [Text title; Text newline] ;;
  log_ranked fmt 0 records ;;
  console_log Plain [Text newline].

(** The statements after the declarations, in order.  [importPlays] is
    declared but never called. *)
Definition main {TB : Mongo.TieBreak} : M unit :=
  mins <- bind (query getTotalMinsPlayed) lift ;;
  tracks <- bind (query getTotalUniqueTracksPlayed) lift ;;
  console_log BgGreen
    [Text "You listened to "; Bold (Num mins);
     Text " mins of music across "; Bold (Int tracks); Text " tracks."] ;;
  console_log Plain [Text newline] ;;
  r1 <- query getTopTracksByPlayTime ;;
  logSeries "Top Tracks by Time Listened" r1
    (fun r => [Num (TopTracksByPlayTime.R.total_mins_played r); Text " mins - ";
               Text (TopTracksByPlayTime.R.track_name r); Text " by ";
               Text (TopTracksByPlayTime.R.artist_name r)]) ;;
  r2 <- query getTopArtistsByPlayTime ;;
  logSeries "Top Artists by Time Listened" r2
    (fun r => [Num (TopArtistsByPlayTime.R.total_play_time_mins r);
               Text " mins - "; Text (TopArtistsByPlayTime.R._id r)]) ;;
  r3 <- query getTopAlbumsByPlayTime ;;
  logSeries "Top Albums by Time Listened" r3
    (fun r => [Num (TopAlbumsByPlayTime.R.total_play_time_mins r);
               Text " mins - "; Text (TopAlbumsByPlayTime.R._id r); Text " by ";
               Text (TopAlbumsByPlayTime.R.artist_name r)]) ;;
  r4 <- query getTopDaysByPlayTime ;;
  logSeries "Top Days by Time Listened" r4
    (fun r => [Num (TopDaysByPlayTime.R.total_play_time_mins r);
               Text " mins - "; Text (TopDaysByPlayTime.R._id r)]) ;;
  r5 <- query getTopTracksByPlayCount ;;
  logSeries "Top Tracks by Play Count" r5
    (fun r => [Int (TopTracksByPlayCount.G.total_play_count r); Text " plays - ";
               Text (TopTracksByPlayCount.G.track_name r); Text " by ";
               Text (TopTracksByPlayCount.G.artist_name r)]) ;;
  r6 <- query getTopArtistsByPlayCount ;;
  logSeries "Top Artists by Play Count" r6
    (fun r => [Int (TopArtistsByPlayCount.G.total_play_count r);
               Text " plays - "; Text (TopArtistsByPlayCount.G._id r)]) ;;
  r7 <- query getTopAlbumsByPlayCount ;;
  logSeries "Top Albums by Play Count" r7
    (fun r => [Int (TopAlbumsByPlayCount.G.total_track_plays_from_album_count r);
               Text " songs played from "; Text (TopAlbumsByPlayCount.G._id r);
               Text " by "; Text (TopAlbumsByPlayCount.G.artist_name r)]) ;;
  r8 <- query getTopDaysByPlayCount ;;
  logSeries "Top Days by Play Count" r8
    (fun r => [Int (TopDaysByPlayCount.G.total_play_count r);
               Text " plays - "; Text (TopDaysByPlayCount.G._id r)]).

(** ** Reference notions the statements below compare the script with *)

(** Rounding to [place] decimals with a half going away from zero. *)
Definition half_away_from_zero (x : Q) : Z :=
  if Qle_bool 0 x then Qfloor (x + (1 # 2)) else - Qfloor (- x + (1 # 2)).

Definition round_half_away_from_zero (x : Q) (place : Z) : Q :=
  let s := 10 ^ place in
  Qmake (half_away_from_zero (x * inject_Z s)) (Z.to_pos s).

Definition sum_Z (l : list Z) : Z := fold_right Z.add 0 l.

(** The sum of [ms_played] over a list of records. *)
Definition total_ms (docs : list PlayRecord) : Z :=
  sum_Z (map ms_played docs).

(** The records of the filtered set with a given value of a field. *)
Definition with_key {K : Type} (eqb : K -> K -> bool) (key : PlayRecord -> K)
  (k : K) (docs : list PlayRecord) : list PlayRecord :=
  List.filter (fun d => eqb k (key d)) docs.

(** The number of distinct track identifiers among a list of records. *)
Definition distinct_tracks (docs : list PlayRecord) : Z :=
  Z.of_nat (List.length (nodup string_dec (map spotify_track_uri docs))).


(** The millisecond total of an album, of an artist and of a day in the
    filtered set. *)
Definition album_ms (db : Collection) (album : string) : Z :=
  total_ms (with_key String.eqb master_metadata_album_album_name album
              (Mongo.match_ filter db)).

Definition artist_ms (db : Collection) (artist : string) : Z :=
  total_ms (with_key String.eqb master_metadata_album_artist_name artist
              (Mongo.match_ filter db)).

Definition track_ms (db : Collection) (uri : string) : Z :=
  total_ms (with_key String.eqb spotify_track_uri uri (Mongo.match_ filter db)).

Definition day_ms (db : Collection) (day : string) : Z :=
  total_ms (with_key String.eqb (fun d => Mongo.dateToString (ts d)) day
              (Mongo.match_ filter db)).

(** The exact quotient of two integers. *)
Definition quotient (a b : Z) : Q := (inject_Z a / inject_Z b)%Q.

(** [v] is a multiple of 0.01 nearest to [q]: no further from [q] than
    half a hundredth. *)
Definition nearest_hundredth (q v : Q) : Prop :=
  exists n : Z, v = n # 100 /\ (Qabs (v - q) <= 1 # 200)%Q.

(** Rounding an exact value to [place] decimals with a half going to the
    even neighbour. *)
Definition half_to_even (x : Q) : Z :=
  let y := (x + (1 # 2))%Q in
  let f := Qfloor y in
  if Qeq_bool y (inject_Z f) && Z.odd f then f - 1 else f.

Definition round_half_to_even (x : Q) (place : Z) : Q :=
  let s := 10 ^ place in
  Qmake (half_to_even (x * inject_Z s)) (Z.to_pos s).

(** A double: an integer of at most 53 bits times a power of two. *)
Definition is_double (d : Q) : Prop :=
  exists m e : Z, Z.abs m <= 2 ^ 53 /\ (d == inject_Z m * 2 ^ e)%Q.

(** [d] is the quotient of [a] by [b] as a double: a double that is the
    exact quotient up to the relative error of one rounding to 53 bits. *)
Definition double_quotient (a b : Z) (d : Q) : Prop :=
  is_double d /\ (Qabs (d - quotient a b) <= quotient a b * 2 ^ (-53))%Q.

(** [v] is what a report shows for the quotient of [t] by [c]: the
    quotient as a double, rounded to two decimals with a half going to
    the even neighbour; and with that a hundredth nearest to the exact
    quotient. *)
Definition shown (t c : Z) (v : Q) : Prop :=
  (exists d : Q, double_quotient t c d /\ v = round_half_to_even d 2)
  /\ nearest_hundredth (quotient t c) v.

(** Minutes and hours shown for a millisecond total [t], each derived from
    [t] itself. *)
Definition shown_for (t : Z) (mins hours : Q) : Prop :=
  shown t 60000 mins /\ shown t 3600000 hours.

(** The store that keeps documents with equal sort keys in the order in
    which they reach the sort: one of the choices it may make. *)
Definition keep_input_order : Mongo.TieBreak := fun _ _ _ => true.

(** The store that puts a document with an equal sort key behind the ones
    already placed: another of its choices. *)
Definition reverse_input_order : Mongo.TieBreak := fun _ _ _ => false.

(** What [Mongo.binary64] makes of a positive number: its 53 leading bits,
    rounded. *)
Definition round53 (q : Q) : Q :=
  (inject_Z (Mongo.half_even (q / 2 ^ (Mongo.ilog2 q - 52)))
   * 2 ^ (Mongo.ilog2 q - 52))%Q.

(** An action that leaves the collection as it found it. *)
Definition keeps_store {A : Type} (m : M A) : Prop :=
  forall w, imported_plays (snd (m w)) = imported_plays w.

(** An action whose outcome and output are a function of the collection,
    and which changes nothing but the console. *)
Definition reads_store_only {A : Type} (m : M A) : Prop :=
  exists f : Collection -> result A * list Line,
    forall w,
      m w = (fst (f (imported_plays w)),
             {| dir := dir w;
                imported_plays := imported_plays w;
                console := console w ++ snd (f (imported_plays w)) |}).

(** ** Further reference notions *)

(** The number of distinct values of a field among a list of records. *)
Definition distinct_keys (key : PlayRecord -> string) (docs : list PlayRecord)
  : nat :=
  List.length (nodup string_dec (map key docs)).

(** The values of a list, each once, in the order of first occurrence. *)
Definition first_occurrences (l : list string) : list string :=
  fold_left
    (fun seen k =>
       if existsb (fun k' => String.eqb k' k) seen then seen else seen ++ [k])
    l [].

(** The calendar day of a record, as the day reports group it. *)
Definition day_of (d : PlayRecord) : string := Mongo.dateToString (ts d).

(** The filtered records with a given track, album, artist or day. *)
Definition plays_of (key : PlayRecord -> string) (k : string) (db : Collection)
  : list PlayRecord :=
  with_key String.eqb key k (Mongo.match_ filter db).

(** A list of documents in descending order of an integer field, and of a
    rational field. *)
Definition descending {A : Type} (field : A -> Z) (l : list A) : Prop :=
  StronglySorted (fun a b => field b <= field a) l.

Definition descendingQ {A : Type} (field : A -> Q) (l : list A) : Prop :=
  StronglySorted (fun a b => (field b <= field a)%Q) l.

(** The world after some more lines were logged. *)
Definition add_lines (ls : list Line) (w : World) : World :=
  {| dir := dir w;
     imported_plays := imported_plays w;
     console := console w ++ ls |}.

(** The lines [logSeries] writes: the title, one line per record with its
    rank, and an empty line. *)
Definition ranked_lines {R : Type} (fmt : R -> list Piece) (from : Z)
  (records : list R) : list Line :=
  map (fun ir : nat * R =>
         let rank := from + Z.of_nat (fst ir) in
         {| style := rank_style rank;
            pieces := Int rank :: Text ". " :: fmt (snd ir) |})
      (combine (seq 1 (List.length records)) records).

Definition series_lines {R : Type} (title : string) (records : list R)
  (fmt : R -> list Piece) : list Line :=
  {| style := BgBlue; pieces := [Text title; Text newline] |}
  :: ranked_lines fmt 0 records
  ++ [ {| style := Plain; pieces := [Text newline] |} ].

(** The name checks of [importPlays]. *)
Definition skipped_by_name (entry : string * Node) : bool :=
  negb (endsWith ".json" (fst entry)) || negb (includes "Audio" (fst entry))
  || isDirectory (snd entry).

(** An entry [importPlays] gets past without an exception: one it skips
    by name, an empty file, or a file whose text decodes to a value that
    has a [length]. *)
Definition passes (JSON_parse : string -> option JS.value)
  (entry : string * Node) : bool :=
  if skipped_by_name entry then true
  else match snd entry with
       | File contents =>
           if String.eqb contents "" then true
           else match JSON_parse contents with
                | Some Undefined | Some Null | None => false
                | Some _ => true
                end
       | Directory | Unreadable => false
       end.

(** The row formats of the eight sections and the lines of a complete
    run of the script on a collection whose summaries are [mins] and
    [tracks]. *)
Definition fmt_track_time (r : TopTracksByPlayTime.R.doc) : list Piece :=
  [Num (TopTracksByPlayTime.R.total_mins_played r); Text " mins - ";
   Text (TopTracksByPlayTime.R.track_name r); Text " by ";
   Text (TopTracksByPlayTime.R.artist_name r)].

Definition fmt_artist_time (r : TopArtistsByPlayTime.R.doc) : list Piece :=
  [Num (TopArtistsByPlayTime.R.total_play_time_mins r);
   Text " mins - "; Text (TopArtistsByPlayTime.R._id r)].

Definition fmt_album_time (r : TopAlbumsByPlayTime.R.doc) : list Piece :=
  [Num (TopAlbumsByPlayTime.R.total_play_time_mins r);
   Text " mins - "; Text (TopAlbumsByPlayTime.R._id r); Text " by ";
   Text (TopAlbumsByPlayTime.R.artist_name r)].

Definition fmt_day_time (r : TopDaysByPlayTime.R.doc) : list Piece :=
  [Num (TopDaysByPlayTime.R.total_play_time_mins r);
   Text " mins - "; Text (TopDaysByPlayTime.R._id r)].

Definition fmt_track_count (r : TopTracksByPlayCount.G.doc) : list Piece :=
  [Int (TopTracksByPlayCount.G.total_play_count r); Text " plays - ";
   Text (TopTracksByPlayCount.G.track_name r); Text " by ";
   Text (TopTracksByPlayCount.G.artist_name r)].

Definition fmt_artist_count (r : TopArtistsByPlayCount.G.doc) : list Piece :=
  [Int (TopArtistsByPlayCount.G.total_play_count r);
   Text " plays - "; Text (TopArtistsByPlayCount.G._id r)].

Definition fmt_album_count (r : TopAlbumsByPlayCount.G.doc) : list Piece :=
  [Int (TopAlbumsByPlayCount.G.total_track_plays_from_album_count r);
   Text " songs played from "; Text (TopAlbumsByPlayCount.G._id r);
   Text " by "; Text (TopAlbumsByPlayCount.G.artist_name r)].

Definition fmt_day_count (r : TopDaysByPlayCount.G.doc) : list Piece :=
  [Int (TopDaysByPlayCount.G.total_play_count r);
   Text " plays - "; Text (TopDaysByPlayCount.G._id r)].

Definition summary_line (mins : Q) (tracks : Z) : Line :=
  {| style := BgGreen;
     pieces := [Text "You listened to "; Bold (Num mins);
                Text " mins of music across "; Bold (Int tracks);
                Text " tracks."] |}.

Definition blank_line : Line :=
  {| style := Plain; pieces := [Text newline] |}.

Definition main_lines {TB : Mongo.TieBreak} (db : Collection) (mins : Q)
  (tracks : Z) : list Line :=
  [summary_line mins tracks; blank_line]
  ++ series_lines "Top Tracks by Time Listened" (getTopTracksByPlayTime db)
       fmt_track_time
  ++ series_lines "Top Artists by Time Listened" (getTopArtistsByPlayTime db)
       fmt_artist_time
  ++ series_lines "Top Albums by Time Listened" (getTopAlbumsByPlayTime db)
       fmt_album_time
  ++ series_lines "Top Days by Time Listened" (getTopDaysByPlayTime db)
       fmt_day_time
  ++ series_lines "Top Tracks by Play Count" (getTopTracksByPlayCount db)
       fmt_track_count
  ++ series_lines "Top Artists by Play Count" (getTopArtistsByPlayCount db)
       fmt_artist_count
  ++ series_lines "Top Albums by Play Count" (getTopAlbumsByPlayCount db)
       fmt_album_count
  ++ series_lines "Top Days by Play Count" (getTopDaysByPlayCount db)
       fmt_day_count.

(** ** Sample data *)

Definition play (t ms : Z) (track artist album uri : string)
  (incognito : bool) : PlayRecord :=
  {| ts := t; platform := "ios"; ms_played := ms; conn_country := "US";
     ip_addr := "198.51.100.7";
     master_metadata_track_name := track;
     master_metadata_album_artist_name := artist;
     master_metadata_album_album_name := album;
     spotify_track_uri := uri;
     reason_start := "trackdone"; reason_end := "trackdone";
     shuffle := false; skipped := false; offline := false;
     offline_timestamp := 0; incognito_mode := incognito |}.

Definition june_23 : Z := Date_UTC 2024 6 23.

(** Two plays of one track and one play of another, all in the report. *)
Definition three_plays : Collection :=
  [ play june_23 200000 "Track A" "Artist 1" "Album X" "spotify:track:A" false;
    play june_23 100000 "Track A" "Artist 1" "Album X" "spotify:track:A" false;
    play june_23 50000 "Track B" "Artist 2" "Album Y" "spotify:track:B" false ].

(** A play in incognito mode: outside the report. *)
Definition incognito_play : PlayRecord :=
  play june_23 200000 "Track A" "Artist 1" "Album X" "spotify:track:A" true.

(** One play of 67500 ms: 1.125 minutes, half way between 1.12 and 1.13. *)
Definition tie_play : PlayRecord :=
  play june_23 67500 "Track A" "Artist 1" "Album X" "spotify:track:A" false.

(** One play of 30300 ms: 0.505 minutes exactly, a little more as a
    double. *)
Definition half_way_play : PlayRecord :=
  play june_23 30300 "Track A" "Artist 1" "Album X" "spotify:track:A" false.

(** One play of 54000 ms: 0.015 hours exactly, a little less as a double. *)
Definition hour_tie_play : PlayRecord :=
  play june_23 54000 "Track A" "Artist 1" "Album X" "spotify:track:A" false.

(** Two albums whose totals, 60000 ms and 60100 ms, both round to 1.00
    minutes; and the same two with the totals exchanged. *)
Definition close_albums : Collection :=
  [ play june_23 60000 "Track A" "Artist 1" "Album X" "spotify:track:A" false;
    play june_23 60100 "Track B" "Artist 1" "Album Y" "spotify:track:B" false ].

Definition close_albums_exchanged : Collection :=
  [ play june_23 60100 "Track A" "Artist 1" "Album X" "spotify:track:A" false;
    play june_23 60000 "Track B" "Artist 1" "Album Y" "spotify:track:B" false ].

(** [JSON.parse] on the texts the sample files hold: an array of one
    object, an empty array, and a text that is cut short.  No other text
    occurs in the samples. *)
Definition sample_JSON_parse (text : string) : option JS.value :=
  if String.eqb text "[{}]" then Some (Array [Object []])
  else if String.eqb text "[]" then Some (Array [])
  else None.

Definition audio_2023 : string := "Streaming_History_Audio_2023.json".
Definition audio_2024 : string := "Streaming_History_Audio_2024.json".

(** A history directory with one well-formed batch of one record, and the
    script started on an empty collection. *)
Definition one_batch : World :=
  {| dir := Some [ (audio_2024, File "[{}]") ];
     imported_plays := [];
     console := [] |}.

(** A history directory whose first batch is cut short. *)
Definition bad_then_good : World :=
  {| dir := Some [ (audio_2023, File "[{"); (audio_2024, File "[{}]") ];
     imported_plays := [];
     console := [] |}.

(** The same world with another directory listing. *)
Definition with_dir (d : option (list (string * Node))) (w : World) : World :=
  {| dir := d; imported_plays := imported_plays w; console := console w |}.

(** * Facts about the operators *)

(** ** Lists *)

Lemma filter_none : forall (A : Type) (f : A -> bool) (l : list A),
  (forall x, In x l -> f x = false) -> List.filter f l = [].
Proof.
  intros A f l. induction l as [|a l IH]; intro H; simpl; [reflexivity|].
  rewrite (H a (or_introl eq_refl)). apply IH. intros x Hx. apply H. now right.
Qed.

(** ** [$group] *)

Section GroupFacts.
Context {D K : Type}.
Variable eqb : K -> K -> bool.
Variable key : D -> K.
Hypothesis eqb_eq : forall a b, eqb a b = true <-> a = b.

Let has (b : Mongo.Bucket D K) (d : D) : bool := eqb (Mongo.bucket_id b) (key d).

Lemma eqb_refl_key : forall k, eqb k k = true.
Proof. intro k. now apply eqb_eq. Qed.

Lemma buckets_snoc : forall l d,
  Mongo.buckets eqb key (l ++ [d])
  = Mongo.add_to_bucket eqb key d (Mongo.buckets eqb key l).
Proof.
  intros l d. unfold Mongo.buckets. now rewrite fold_left_app.
Qed.

Lemma add_to_bucket_ids : forall d bs,
  map Mongo.bucket_id (Mongo.add_to_bucket eqb key d bs)
  = if existsb (fun b => has b d) bs
    then map Mongo.bucket_id bs
    else map Mongo.bucket_id bs ++ [key d].
Proof.
  intros d bs. induction bs as [|b bs IH]; simpl; [reflexivity|].
  unfold has at 1. destruct (eqb (Mongo.bucket_id b) (key d)) eqn:E; simpl.
  - reflexivity.
  - rewrite IH. now destruct (existsb _ bs).
Qed.

Lemma existsb_has_In : forall d bs,
  existsb (fun b => has b d) bs = true <-> In (key d) (map Mongo.bucket_id bs).
Proof.
  intros d bs. rewrite existsb_exists, in_map_iff. unfold has.
  split; intros [b [H1 H2]]; exists b.
  - apply eqb_eq in H2. now split.
  - split; [assumption|]. now apply eqb_eq.
Qed.

Lemma add_to_bucket_NoDup : forall d bs,
  NoDup (map Mongo.bucket_id bs) ->
  NoDup (map Mongo.bucket_id (Mongo.add_to_bucket eqb key d bs)).
Proof.
  intros d bs ND. rewrite add_to_bucket_ids.
  destruct (existsb (fun b => has b d) bs) eqn:E; [assumption|].
  apply NoDup_app; [assumption | repeat constructor; intros [] | ].
  intros k Hk [<-|[]]. apply existsb_has_In in Hk. congruence.
Qed.

Lemma add_to_bucket_docs : forall l d bs,
  NoDup (map Mongo.bucket_id bs) ->
  Forall (fun b => Mongo.bucket_docs b = List.filter (has b) l) bs ->
  (forall x, In x l -> key x = key d -> In (key d) (map Mongo.bucket_id bs)) ->
  Forall (fun b => Mongo.bucket_docs b = List.filter (has b) (l ++ [d]))
         (Mongo.add_to_bucket eqb key d bs).
Proof.
  intros l d bs. induction bs as [|b bs IH]; intros ND Hdocs Hcov.
  - simpl. constructor; [|constructor].
    unfold Mongo.bucket_docs, has; simpl. rewrite filter_app; simpl.
    rewrite eqb_refl_key.
    replace (List.filter (fun d0 => eqb (key d) (key d0)) l) with (@nil D);
      [reflexivity|].
    symmetry. apply filter_none.
    intros x Hx. destruct (eqb (key d) (key x)) eqn:E; [|reflexivity].
    apply eqb_eq in E. destruct (Hcov x Hx (eq_sym E)).
  - simpl in ND. inversion ND as [|k ks Hnotin ND' ]; subst.
    inversion Hdocs as [|b0 bs0 Hb Hbs]; subst. simpl.
    destruct (eqb (Mongo.bucket_id b) (key d)) eqn:E.
    + apply eqb_eq in E. constructor.
      * unfold Mongo.bucket_docs, has in *; simpl. rewrite filter_app; simpl.
        rewrite E, eqb_refl_key, <- E.
        rewrite app_comm_cons. now rewrite Hb.
      * rewrite Forall_forall in *. intros b2 Hb2. rewrite filter_app; simpl.
        unfold has at 2. destruct (eqb (Mongo.bucket_id b2) (key d)) eqn:E2.
        -- apply eqb_eq in E2. exfalso. apply Hnotin. rewrite E, <- E2.
           now apply in_map.
        -- rewrite app_nil_r. now apply Hbs.
    + constructor.
      * rewrite filter_app; simpl. unfold has at 2. rewrite E.
        now rewrite app_nil_r.
      * apply IH; [assumption | assumption |].
        intros x Hx Hk. destruct (Hcov x Hx Hk) as [Heq|Hin]; [|assumption].
        rewrite <- Heq, eqb_refl_key in E. discriminate.
Qed.

(** The buckets partition the input by key: their ids are distinct, each
    holds exactly the documents of its key in input order, and every
    document has a bucket. *)
Lemma buckets_spec : forall l,
  NoDup (map Mongo.bucket_id (Mongo.buckets eqb key l))
  /\ Forall (fun b => Mongo.bucket_docs b = List.filter (has b) l)
            (Mongo.buckets eqb key l)
  /\ (forall x, In x l -> In (key x) (map Mongo.bucket_id (Mongo.buckets eqb key l))).
Proof.
  intro l. induction l as [|d l [ND [Hdocs Hcov]]] using rev_ind.
  - repeat split; [constructor | constructor | intros x []].
  - rewrite buckets_snoc. repeat split.
    + now apply add_to_bucket_NoDup.
    + apply add_to_bucket_docs; [assumption | assumption |].
      intros x Hx Hk. rewrite <- Hk. now apply Hcov.
    + intros x Hx. rewrite add_to_bucket_ids.
      destruct (existsb (fun b => has b d) (Mongo.buckets eqb key l)) eqn:E.
      * apply in_app_or in Hx. destruct Hx as [Hx|[<-|[]]]; [now apply Hcov|].
        now apply existsb_has_In.
      * apply in_or_app. apply in_app_or in Hx.
        destruct Hx as [Hx|[<-|[]]]; [left; now apply Hcov | right; now left].
Qed.

Lemma bucket_docs_filter : forall l b,
  In b (Mongo.buckets eqb key l) ->
  Mongo.bucket_docs b
  = List.filter (fun d => eqb (Mongo.bucket_id b) (key d)) l.
Proof.
  intros l b Hb. destruct (buckets_spec l) as [_ [H _]].
  rewrite Forall_forall in H. now apply H.
Qed.

Lemma bucket_ids_keys : forall l k,
  In k (map Mongo.bucket_id (Mongo.buckets eqb key l)) <-> In k (map key l).
Proof.
  intros l k. split.
  - intro Hk. apply in_map_iff in Hk. destruct Hk as [b [<- Hb]].
    pose proof (bucket_docs_filter l b Hb) as Hd.
    assert (Hin : In (Mongo.bucket_first b)
                     (List.filter (fun d => eqb (Mongo.bucket_id b) (key d)) l)).
    { rewrite <- Hd. now left. }
    apply filter_In in Hin. destruct Hin as [Hin E]. apply eqb_eq in E.
    rewrite E. now apply in_map.
  - intro Hk. apply in_map_iff in Hk. destruct Hk as [x [<- Hx]].
    now apply (proj2 (proj2 (buckets_spec l))).
Qed.

End GroupFacts.

(** ** Sums *)

Lemma sum_Z_app : forall l1 l2, sum_Z (l1 ++ l2) = sum_Z l1 + sum_Z l2.
Proof.
  intros l1 l2. induction l1 as [|a l1 IH]; simpl; [reflexivity|].
  rewrite IH. lia.
Qed.

Lemma sum_Z_perm : forall l1 l2, Permutation l1 l2 -> sum_Z l1 = sum_Z l2.
Proof.
  intros l1 l2 P. induction P; simpl; lia.
Qed.

Lemma fold_left_sum : forall (D : Type) (f : D -> Z) (l : list D) (a : Z),
  fold_left (fun acc d => acc + f d) l a = a + sum_Z (map f l).
Proof.
  intros D f l. induction l as [|d l IH]; intro a; simpl; [lia|].
  rewrite IH. lia.
Qed.

Lemma sum_bucket : forall (D K : Type) (f : D -> Z) (b : Mongo.Bucket D K),
  Mongo.sum f b = sum_Z (map f (Mongo.bucket_docs b)).
Proof.
  intros D K f b. unfold Mongo.sum. now rewrite fold_left_sum.
Qed.

Section GroupSums.
Context {D K : Type}.
Variable eqb : K -> K -> bool.
Variable key : D -> K.
Variable f : D -> Z.

Lemma add_to_bucket_sum : forall d bs,
  sum_Z (map (Mongo.sum f) (Mongo.add_to_bucket eqb key d bs))
  = sum_Z (map (Mongo.sum f) bs) + f d.
Proof.
  intros d bs. induction bs as [|b bs IH]; simpl.
  - unfold Mongo.sum; simpl. lia.
  - destruct (eqb (Mongo.bucket_id b) (key d)); simpl.
    + rewrite !sum_bucket. unfold Mongo.bucket_docs; simpl.
      rewrite map_app, sum_Z_app; simpl. lia.
    + rewrite IH. lia.
Qed.

(** Grouping is a partition: the bucket sums add up to the sum over the
    input. *)
Lemma buckets_sum : forall l,
  sum_Z (map (Mongo.sum f) (Mongo.buckets eqb key l)) = sum_Z (map f l).
Proof.
  intro l. induction l as [|d l IH] using rev_ind; [reflexivity|].
  unfold Mongo.buckets in *. rewrite fold_left_app; simpl.
  rewrite add_to_bucket_sum, IH, map_app, sum_Z_app; simpl. lia.
Qed.

End GroupSums.

Section GroupCount.
Context {D K : Type}.
Variable eqb : K -> K -> bool.
Variable key : D -> K.
Hypothesis eqb_eq : forall a b, eqb a b = true <-> a = b.
Variable dec : forall a b : K, {a = b} + {a <> b}.

(** There are as many buckets as distinct keys. *)
Lemma buckets_count : forall l,
  List.length (Mongo.buckets eqb key l)
  = List.length (nodup dec (map key l)).
Proof.
  intro l. rewrite <- (length_map Mongo.bucket_id).
  apply Permutation_length, NoDup_Permutation.
  - apply (buckets_spec eqb key eqb_eq l).
  - apply NoDup_nodup.
  - intro k. rewrite nodup_In. now apply bucket_ids_keys.
Qed.

Lemma buckets_nonempty : forall l, l <> [] -> Mongo.buckets eqb key l <> [].
Proof.
  intros [|d l] Hl; [congruence|]. intro E.
  assert (H : In (key d) (map Mongo.bucket_id (Mongo.buckets eqb key (d :: l)))).
  { apply (bucket_ids_keys eqb key eqb_eq). now left. }
  rewrite E in H. destruct H.
Qed.

End GroupCount.

(** With [_id: null] every document goes to the one bucket. *)
Lemma buckets_null : forall (D : Type) (d : D) (l : list D),
  Mongo.buckets (fun _ _ : unit => true) (fun _ => tt) (d :: l)
  = [ {| Mongo.bucket_id := tt; Mongo.bucket_first := d; Mongo.bucket_rest := l |} ].
Proof.
  intros D d l. unfold Mongo.buckets; simpl.
  change l with ([] ++ l) at 2. generalize (@nil D) as done.
  induction l as [|x l IH]; intro done; simpl.
  - now rewrite app_nil_r.
  - rewrite IH. now rewrite <- app_assoc.
Qed.

(** ** [$sort] *)

Section SortFacts.
Context {TB : Mongo.TieBreak} {A T : Type}.
Variable leb : T -> T -> bool.
Variable field : A -> T.

Let desc (a b : A) : Prop := leb (field b) (field a) = true.

Lemma goes_before_true : forall x y,
  Mongo.goes_before leb field x y = true -> leb (field y) (field x) = true.
Proof.
  intros x y. unfold Mongo.goes_before.
  destruct (leb (field y) (field x)); [reflexivity | discriminate].
Qed.

Lemma insert_desc_perm : forall x l,
  Permutation (Mongo.insert_desc leb field x l) (x :: l).
Proof.
  intros x l. induction l as [|y l IH]; simpl; [apply Permutation_refl|].
  destruct (Mongo.goes_before leb field x y); [apply Permutation_refl|].
  eapply perm_trans; [apply perm_skip, IH | apply perm_swap].
Qed.

Lemma sort_desc_perm : forall l, Permutation (Mongo.sort_desc leb field l) l.
Proof.
  intro l. induction l as [|x l IH]; simpl; [constructor|].
  eapply perm_trans; [apply insert_desc_perm | now apply perm_skip].
Qed.

Lemma sort_desc_length : forall l,
  List.length (Mongo.sort_desc leb field l) = List.length l.
Proof. intro l. apply Permutation_length, sort_desc_perm. Qed.

Lemma sort_desc_In : forall l x, In x (Mongo.sort_desc leb field l) <-> In x l.
Proof.
  intros l x. split; apply Permutation_in;
    [apply sort_desc_perm | apply Permutation_sym, sort_desc_perm].
Qed.

Hypothesis leb_total : forall a b, leb a b = true \/ leb b a = true.
Hypothesis leb_trans : forall a b c,
  leb a b = true -> leb b c = true -> leb a c = true.

Lemma goes_before_false : forall x y,
  Mongo.goes_before leb field x y = false -> leb (field x) (field y) = true.
Proof.
  intros x y. unfold Mongo.goes_before.
  destruct (leb (field y) (field x)) eqn:E.
  - destruct (leb (field x) (field y)); [reflexivity | discriminate].
  - intros _. destruct (leb_total (field x) (field y)); congruence.
Qed.

Lemma insert_desc_sorted : forall x l,
  StronglySorted desc l ->
  StronglySorted desc (Mongo.insert_desc leb field x l).
Proof.
  intros x l. induction l as [|y l IH]; intro S; simpl.
  - constructor; constructor.
  - inversion S as [|y' l' Sl Hy]; subst.
    destruct (Mongo.goes_before leb field x y) eqn:E.
    + apply goes_before_true in E.
      constructor; [assumption|]. constructor; [exact E|].
      rewrite Forall_forall in *. intros z Hz. unfold desc in *.
      eapply leb_trans; [apply Hy, Hz | exact E].
    + apply goes_before_false in E.
      constructor; [now apply IH|].
      rewrite Forall_forall in *. intros z Hz.
      apply (Permutation_in _ (insert_desc_perm x l)) in Hz.
      destruct Hz as [<-|Hz]; [exact E | now apply Hy].
Qed.

(** The output is in descending order of the field, however the documents
    with equal fields are arranged. *)
Lemma sort_desc_sorted : forall l,
  StronglySorted desc (Mongo.sort_desc leb field l).
Proof.
  intro l. induction l as [|x l IH]; simpl; [constructor|].
  now apply insert_desc_sorted.
Qed.

End SortFacts.

Lemma Zleb_total : forall a b : Z, (a <=? b) = true \/ (b <=? a) = true.
Proof. intros a b. rewrite !Z.leb_le. lia. Qed.

Lemma Zleb_trans : forall a b c : Z,
  (a <=? b) = true -> (b <=? c) = true -> (a <=? c) = true.
Proof. intros a b c. rewrite !Z.leb_le. lia. Qed.

Lemma Qleb_total : forall a b : Q, Qle_bool a b = true \/ Qle_bool b a = true.
Proof.
  intros a b. rewrite !Qle_bool_iff.
  destruct (Qlt_le_dec a b) as [H|H]; [left; now apply Qlt_le_weak | now right].
Qed.

Lemma Qleb_trans : forall a b c : Q,
  Qle_bool a b = true -> Qle_bool b c = true -> Qle_bool a c = true.
Proof. intros a b c. rewrite !Qle_bool_iff. apply Qle_trans. Qed.

(** ** [limit] *)


Lemma limit_In : forall (A : Type) (n : nat) (l : list A) (x : A),
  In x (Mongo.limit n l) -> In x l.
Proof.
  intros A n l x H. unfold Mongo.limit in H.
  rewrite <- (firstn_skipn n l). apply in_or_app. now left.
Qed.

(** ** [$round] *)

Lemma round_2 : forall x : Q,
  Mongo.round x 2 = Qmake (Mongo.half_even (x * inject_Z 100)) 100.
Proof. reflexivity. Qed.

Lemma half_even_comp : forall x y : Q,
  (x == y)%Q -> Mongo.half_even x = Mongo.half_even y.
Proof.
  intros x y H. unfold Mongo.half_even.
  rewrite (Qfloor_comp _ _ H).
  now rewrite H.
Qed.

Lemma half_even_nearest : forall x : Q,
  (x - (1 # 2) <= inject_Z (Mongo.half_even x) <= x + (1 # 2))%Q.
Proof.
  intro x. unfold Mongo.half_even.
  pose proof (Qfloor_le x) as Hlo. pose proof (Qlt_floor x) as Hhi.
  rewrite inject_Z_plus in Hhi. change (inject_Z 1) with 1%Q in Hhi.
  destruct (Qcompare_spec (x - inject_Z (Qfloor x)) (1 # 2)) as [E|L|G].
  - destruct (Z.even (Qfloor x));
      [|rewrite inject_Z_plus; change (inject_Z 1) with 1%Q]; lra.
  - lra.
  - rewrite inject_Z_plus. change (inject_Z 1) with 1%Q. lra.
Qed.

Lemma half_even_tie : forall n : Z,
  Mongo.half_even ((2 * n + 1) # 2) = if Z.even n then n else n + 1.
Proof.
  intro n. unfold Mongo.half_even.
  assert (F : Qfloor ((2 * n + 1) # 2) = n).
  { unfold Qfloor. replace (2 * n + 1) with (1 + n * 2) by lia.
    now rewrite Z.div_add. }
  rewrite F.
  assert (E : (((2 * n + 1) # 2) - inject_Z n == 1 # 2)%Q).
  { unfold Qeq, Qminus, Qplus, Qopp, inject_Z; cbn [Qnum Qden]. lia. }
  apply Qeq_alt in E. now rewrite E.
Qed.

(** Half way between two hundredths the result is the even one. *)
Lemma round_tie : forall n : Z,
  Mongo.round ((2 * n + 1) # 200) 2
  = Qmake (if Z.even n then n else n + 1) 100.
Proof.
  intro n. rewrite round_2. f_equal. rewrite <- half_even_tie.
  apply half_even_comp. unfold Qeq, Qmult, inject_Z; cbn [Qnum Qden]. lia.
Qed.

Lemma round_nearest : forall x : Q,
  (x - (1 # 200) <= Mongo.round x 2 <= x + (1 # 200))%Q.
Proof.
  intro x. rewrite round_2.
  pose proof (half_even_nearest (x * inject_Z 100)) as H.
  set (n := Mongo.half_even (x * inject_Z 100)) in *.
  assert (E : (n # 100 == inject_Z n * (1 # 100))%Q).
  { unfold Qeq, Qmult, inject_Z; cbn [Qnum Qden]. lia. }
  rewrite E. change (inject_Z 100) with (100 # 1)%Q in H. lra.
Qed.

Lemma half_even_monotone : forall x y : Q,
  (x <= y)%Q -> Mongo.half_even x <= Mongo.half_even y.
Proof.
  intros x y Hxy. unfold Mongo.half_even.
  pose proof (Qfloor_resp_le x y Hxy) as Hf.
  pose proof (Qfloor_le x) as Hx1. pose proof (Qlt_floor x) as Hx2.
  pose proof (Qfloor_le y) as Hy1. pose proof (Qlt_floor y) as Hy2.
  rewrite inject_Z_plus in Hx2, Hy2. change (inject_Z 1) with 1%Q in Hx2, Hy2.
  destruct (Z.eq_dec (Qfloor x) (Qfloor y)) as [E|N].
  - rewrite <- E in *.
    destruct (Qcompare_spec (x - inject_Z (Qfloor x)) (1 # 2)) as [Ex|Lx|Gx];
      destruct (Qcompare_spec (y - inject_Z (Qfloor x)) (1 # 2)) as [Ey|Ly|Gy];
      try lia; try (exfalso; lra);
      destruct (Z.even (Qfloor x)); lia.
  - assert (Hlt : Qfloor x + 1 <= Qfloor y) by lia.
    destruct (Qcompare (x - inject_Z (Qfloor x)) (1 # 2));
      destruct (Qcompare (y - inject_Z (Qfloor y)) (1 # 2));
      try destruct (Z.even (Qfloor x)); try destruct (Z.even (Qfloor y)); lia.
Qed.

(** Rounding to two decimals keeps the order. *)
Lemma round_monotone : forall x y : Q,
  (x <= y)%Q -> (Mongo.round x 2 <= Mongo.round y 2)%Q.
Proof.
  intros x y H. rewrite !round_2. unfold Qle; cbn [Qnum Qden].
  apply Z.mul_le_mono_nonneg_r; [lia|].
  apply half_even_monotone. change (inject_Z 100) with (100 # 1)%Q. nra.
Qed.

(** ** Powers of two *)

Lemma pow2_pos : forall e : Z, (0 < 2 ^ e)%Q.
Proof. intro e. apply Qpower_0_lt. reflexivity. Qed.

Lemma pow2_plus : forall a b : Z, (2 ^ (a + b) == 2 ^ a * 2 ^ b)%Q.
Proof. intros a b. apply Qpower_plus. discriminate. Qed.

Lemma pow2_succ : forall a : Z, (2 ^ (a + 1) == 2 * 2 ^ a)%Q.
Proof. intro a. rewrite pow2_plus. change (2 ^ 1)%Q with 2%Q. ring. Qed.

Lemma pow2_le : forall a b : Z, a <= b -> (2 ^ a <= 2 ^ b)%Q.
Proof. intros a b H. apply Qpower_le_compat_l; [exact H | discriminate]. Qed.

Lemma pow2_lt_inv : forall a b : Z, (2 ^ a < 2 ^ b)%Q -> a < b.
Proof. intros a b H. apply (Qpower_lt_compat_l_inv 2); [exact H | reflexivity]. Qed.

Lemma pow2_Z : forall n : Z, 0 <= n -> (inject_Z (2 ^ n) == 2 ^ n)%Q.
Proof. intros n H. now rewrite Zpower_Qpower. Qed.

(** ** The binary logarithm *)

Lemma ilog2_spec : forall q : Q,
  (0 < q)%Q -> (2 ^ Mongo.ilog2 q <= q < 2 ^ (Mongo.ilog2 q + 1))%Q.
Proof.
  intros [n d] Hq. unfold Mongo.ilog2. cbn [Qnum Qden].
  assert (Hn : 0 < n) by (unfold Qlt in Hq; simpl in Hq; lia).
  set (a := Z.log2 n). set (b := Z.log2 (Zpos d)).
  destruct (Z.log2_spec n Hn) as [Na1 Na2]. fold a in Na1, Na2.
  destruct (Z.log2_spec (Zpos d) (Pos2Z.is_pos d)) as [Nb1 Nb2].
  fold b in Nb1, Nb2.
  assert (Ha : 0 <= a) by apply Z.log2_nonneg.
  assert (Hb : 0 <= b) by apply Z.log2_nonneg.
  assert (QA1 : (2 ^ a <= inject_Z n)%Q).
  { rewrite <- pow2_Z by lia. now rewrite <- Zle_Qle. }
  assert (QA2 : (inject_Z n < 2 * 2 ^ a)%Q).
  { rewrite <- pow2_succ, <- pow2_Z by lia. rewrite <- Zlt_Qlt. exact Na2. }
  assert (QB1 : (2 ^ b <= inject_Z (Zpos d))%Q).
  { rewrite <- pow2_Z by lia. now rewrite <- Zle_Qle. }
  assert (QB2 : (inject_Z (Zpos d) < 2 * 2 ^ b)%Q).
  { rewrite <- pow2_succ, <- pow2_Z by lia. rewrite <- Zlt_Qlt. exact Nb2. }
  assert (Qd : (n # d) * inject_Z (Zpos d) == inject_Z n).
  { unfold Qeq, Qmult, inject_Z; simpl. lia. }
  assert (Pc : (2 ^ (a - b) * 2 ^ b == 2 ^ a)%Q).
  { rewrite <- pow2_plus. now replace (a - b + b) with a by lia. }
  pose proof (pow2_pos a) as PA. pose proof (pow2_pos b) as PB.
  pose proof (pow2_pos (a - b)) as PC.
  assert (PD : (0 < inject_Z (Zpos d))%Q) by (unfold Qlt; simpl; lia).
  set (q := n # d) in *. set (D := inject_Z (Zpos d)) in *.
  set (N := inject_Z n) in *.
  set (A := (2 ^ a)%Q) in *. set (B := (2 ^ b)%Q) in *.
  destruct (Qle_bool (2 ^ (a - b)) q) eqn:E.
  - apply Qle_bool_iff in E. split; [exact E|].
    rewrite pow2_succ. set (C := (2 ^ (a - b))%Q) in *.
    nra.
  - assert (L : (q < 2 ^ (a - b))%Q).
    { apply Qnot_le_lt. intro H. apply Qle_bool_iff in H. congruence. }
    replace (a - b - 1 + 1) with (a - b) by lia. split; [|exact L].
    assert (P1 : (2 * 2 ^ (a - b - 1) == 2 ^ (a - b))%Q).
    { rewrite <- pow2_succ. now replace (a - b - 1 + 1) with (a - b) by lia. }
    set (C := (2 ^ (a - b))%Q) in *. set (C1 := (2 ^ (a - b - 1))%Q) in *.
    nra.
Qed.

Lemma ilog2_unique : forall (q : Q) (k : Z),
  (2 ^ k <= q < 2 ^ (k + 1))%Q -> Mongo.ilog2 q = k.
Proof.
  intros q k [H1 H2].
  assert (Hq : (0 < q)%Q) by (pose proof (pow2_pos k); lra).
  destruct (ilog2_spec q Hq) as [S1 S2].
  assert (k < Mongo.ilog2 q + 1) by (apply pow2_lt_inv; lra).
  assert (Mongo.ilog2 q < k + 1) by (apply pow2_lt_inv; lra).
  lia.
Qed.

Lemma ilog2_comp : forall q q' : Q, (0 < q)%Q -> (q == q')%Q -> Mongo.ilog2 q = Mongo.ilog2 q'.
Proof.
  intros q q' Hq E. symmetry. apply ilog2_unique. rewrite <- E.
  now apply ilog2_spec.
Qed.

Lemma ilog2_monotone : forall q1 q2 : Q,
  (0 < q1)%Q -> (q1 <= q2)%Q -> Mongo.ilog2 q1 <= Mongo.ilog2 q2.
Proof.
  intros q1 q2 H1 H.
  destruct (ilog2_spec q1 H1) as [A1 A2].
  destruct (ilog2_spec q2) as [B1 B2]; [lra|].
  assert (Mongo.ilog2 q1 < Mongo.ilog2 q2 + 1) by (apply pow2_lt_inv; lra). lia.
Qed.

(** ** Rounding to binary64 *)

Lemma half_even_Z : forall z : Z, Mongo.half_even (inject_Z z) = z.
Proof.
  intro z. unfold Mongo.half_even. rewrite Qfloor_Z.
  assert (E : (inject_Z z - inject_Z z ?= 1 # 2)%Q = Lt).
  { apply Qlt_alt. setoid_replace (inject_Z z - inject_Z z)%Q with 0%Q by ring.
    reflexivity. }
  now rewrite E.
Qed.

Lemma scaled_bounds : forall q : Q,
  (0 < q)%Q ->
  (2 ^ 52 <= q / 2 ^ (Mongo.ilog2 q - 52) < 2 ^ 53)%Q.
Proof.
  intros q Hq. destruct (ilog2_spec q Hq) as [S1 S2].
  pose proof (pow2_pos (Mongo.ilog2 q - 52)) as PE.
  assert (P1 : (2 ^ 52 * 2 ^ (Mongo.ilog2 q - 52) == 2 ^ Mongo.ilog2 q)%Q).
  { rewrite <- pow2_plus. now replace (52 + (Mongo.ilog2 q - 52)) with (Mongo.ilog2 q) by lia. }
  assert (P2 : (2 ^ 53 * 2 ^ (Mongo.ilog2 q - 52) == 2 ^ (Mongo.ilog2 q + 1))%Q).
  { rewrite <- pow2_plus.
    now replace (53 + (Mongo.ilog2 q - 52)) with (Mongo.ilog2 q + 1) by lia. }
  split.
  - apply Qle_shift_div_l; [exact PE|]. rewrite P1. exact S1.
  - apply Qlt_shift_div_r; [exact PE|]. rewrite P2. exact S2.
Qed.

Lemma mantissa_bounds : forall q : Q,
  (0 < q)%Q ->
  2 ^ 52 <= Mongo.half_even (q / 2 ^ (Mongo.ilog2 q - 52)) <= 2 ^ 53.
Proof.
  intros q Hq. destruct (scaled_bounds q Hq) as [B1 B2].
  split.
  - rewrite <- (half_even_Z (2 ^ 52)). apply half_even_monotone.
    rewrite pow2_Z by lia. exact B1.
  - rewrite <- (half_even_Z (2 ^ 53)). apply half_even_monotone.
    rewrite pow2_Z by lia. now apply Qlt_le_weak.
Qed.

Lemma round53_bounds : forall q : Q,
  (0 < q)%Q -> (2 ^ Mongo.ilog2 q <= round53 q <= 2 ^ (Mongo.ilog2 q + 1))%Q.
Proof.
  intros q Hq. unfold round53.
  destruct (mantissa_bounds q Hq) as [M1 M2].
  pose proof (pow2_pos (Mongo.ilog2 q - 52)) as PE.
  rewrite Zle_Qle in M1, M2. rewrite pow2_Z in M1, M2 by lia.
  assert (P1 : (2 ^ 52 * 2 ^ (Mongo.ilog2 q - 52) == 2 ^ Mongo.ilog2 q)%Q).
  { rewrite <- pow2_plus. now replace (52 + (Mongo.ilog2 q - 52)) with (Mongo.ilog2 q) by lia. }
  assert (P2 : (2 ^ 53 * 2 ^ (Mongo.ilog2 q - 52) == 2 ^ (Mongo.ilog2 q + 1))%Q).
  { rewrite <- pow2_plus.
    now replace (53 + (Mongo.ilog2 q - 52)) with (Mongo.ilog2 q + 1) by lia. }
  rewrite <- P1, <- P2.
  split; apply Qmult_le_compat_r; try assumption; now apply Qlt_le_weak.
Qed.

Lemma round53_pos : forall q : Q, (0 < q)%Q -> (0 < round53 q)%Q.
Proof.
  intros q Hq. destruct (round53_bounds q Hq) as [B _].
  pose proof (pow2_pos (Mongo.ilog2 q)). lra.
Qed.

Lemma round53_comp : forall q q' : Q,
  (0 < q)%Q -> (q == q')%Q -> (round53 q == round53 q')%Q.
Proof.
  intros q q' Hq E. unfold round53. rewrite <- (ilog2_comp q q' Hq E).
  rewrite (half_even_comp (q / 2 ^ (Mongo.ilog2 q - 52)) (q' / 2 ^ (Mongo.ilog2 q - 52))).
  - reflexivity.
  - apply Qdiv_comp; [exact E | reflexivity].
Qed.

Lemma round53_monotone : forall q1 q2 : Q,
  (0 < q1)%Q -> (q1 <= q2)%Q -> (round53 q1 <= round53 q2)%Q.
Proof.
  intros q1 q2 H1 H.
  assert (H2 : (0 < q2)%Q) by lra.
  pose proof (ilog2_monotone q1 q2 H1 H) as K.
  destruct (Z.eq_dec (Mongo.ilog2 q1) (Mongo.ilog2 q2)) as [E|N].
  - unfold round53. rewrite E.
    pose proof (pow2_pos (Mongo.ilog2 q2 - 52)) as PE.
    apply Qmult_le_compat_r; [|now apply Qlt_le_weak].
    rewrite <- Zle_Qle. apply half_even_monotone.
    apply Qmult_le_compat_r; [exact H|].
    apply Qlt_le_weak, Qinv_lt_0_compat, PE.
  - destruct (round53_bounds q1 H1) as [_ U].
    destruct (round53_bounds q2 H2) as [L _].
    assert (K' : Mongo.ilog2 q1 + 1 <= Mongo.ilog2 q2) by lia.
    pose proof (pow2_le (Mongo.ilog2 q1 + 1) (Mongo.ilog2 q2) K'). lra.
Qed.

(** The error of one rounding is at most half a unit in the last place. *)
Lemma round53_error : forall q : Q,
  (0 < q)%Q ->
  (Qabs (round53 q - q) <= 2 ^ (Mongo.ilog2 q - 53))%Q.
Proof.
  intros q Hq. unfold round53.
  set (e := Mongo.ilog2 q - 52). pose proof (pow2_pos e) as PE.
  pose proof (half_even_nearest (q / 2 ^ e)) as [N1 N2].
  set (m := inject_Z (Mongo.half_even (q / 2 ^ e))) in *.
  assert (X : (q / 2 ^ e * 2 ^ e == q)%Q) by (field; lra).
  assert (H : (2 * 2 ^ (Mongo.ilog2 q - 53) == 2 ^ e)%Q).
  { rewrite <- pow2_succ. unfold e.
    now replace (Mongo.ilog2 q - 53 + 1) with (Mongo.ilog2 q - 52) by lia. }
  set (x := (q / 2 ^ e)%Q) in *. set (P := (2 ^ e)%Q) in *.
  set (h := (2 ^ (Mongo.ilog2 q - 53))%Q) in *.
  apply Qabs_Qle_condition. split; nra.
Qed.

Lemma binary64_pos : forall q : Q, (0 < q)%Q -> Mongo.binary64 q = round53 q.
Proof.
  intros q Hq. unfold Mongo.binary64.
  assert (E : (q ?= 0)%Q = Gt) by now apply Qgt_alt.
  now rewrite E.
Qed.

Lemma binary64_neg : forall q : Q,
  (q < 0)%Q -> Mongo.binary64 q = (- round53 (- q))%Q.
Proof.
  intros q Hq. unfold Mongo.binary64.
  assert (E : (q ?= 0)%Q = Lt) by now apply Qlt_alt.
  rewrite E. reflexivity.
Qed.

Lemma binary64_zero : forall q : Q, (q == 0)%Q -> Mongo.binary64 q = 0%Q.
Proof.
  intros q Hq. unfold Mongo.binary64.
  assert (E : (q ?= 0)%Q = Eq) by now apply Qeq_alt.
  now rewrite E.
Qed.

Lemma binary64_sign : forall q : Q,
  ((0 < q)%Q -> (0 < Mongo.binary64 q)%Q)
  /\ ((q < 0)%Q -> (Mongo.binary64 q < 0)%Q)
  /\ ((q == 0)%Q -> (Mongo.binary64 q == 0)%Q).
Proof.
  intro q. split; [|split]; intro H.
  - rewrite binary64_pos by exact H. now apply round53_pos.
  - rewrite binary64_neg by exact H.
    assert (P : (0 < round53 (- q))%Q) by (apply round53_pos; lra). lra.
  - now rewrite binary64_zero.
Qed.

Lemma binary64_comp : forall q q' : Q,
  (q == q')%Q -> (Mongo.binary64 q == Mongo.binary64 q')%Q.
Proof.
  intros q q' E.
  destruct (Q_dec q 0) as [[L|G]|Z0].
  - rewrite (binary64_neg q L), (binary64_neg q') by (rewrite <- E; exact L).
    rewrite (round53_comp (- q) (- q')); [reflexivity | lra | now rewrite E].
  - rewrite (binary64_pos q G), (binary64_pos q') by (rewrite <- E; exact G).
    now apply round53_comp.
  - rewrite (binary64_zero q Z0), (binary64_zero q') by (rewrite <- E; exact Z0).
    reflexivity.
Qed.

(** Rounding to binary64 keeps the order. *)
Lemma binary64_monotone : forall q1 q2 : Q,
  (q1 <= q2)%Q -> (Mongo.binary64 q1 <= Mongo.binary64 q2)%Q.
Proof.
  intros q1 q2 H.
  destruct (binary64_sign q1) as [P1 [N1 Z1]].
  destruct (binary64_sign q2) as [P2 [N2 Z2]].
  destruct (Q_dec q1 0) as [[L1|G1]|E1]; destruct (Q_dec q2 0) as [[L2|G2]|E2];
    try (exfalso; lra).
  - rewrite (binary64_neg q1 L1), (binary64_neg q2 L2).
    assert (M : (round53 (- q2) <= round53 (- q1))%Q)
      by (apply round53_monotone; lra).
    lra.
  - specialize (N1 L1). specialize (P2 G2). lra.
  - specialize (N1 L1). specialize (Z2 E2). lra.
  - rewrite (binary64_pos q1 G1), (binary64_pos q2 G2).
    now apply round53_monotone.
  - specialize (Z1 E1). specialize (P2 G2). lra.
  - specialize (Z1 E1). specialize (Z2 E2). lra.
Qed.

(** ** [$divide] *)

Lemma ilog2_upper : forall (q : Q) (K : Z),
  (0 < q)%Q -> (q < 2 ^ (K + 1))%Q -> Mongo.ilog2 q <= K.
Proof.
  intros q K Hq H. destruct (ilog2_spec q Hq) as [S _].
  assert (Mongo.ilog2 q < K + 1) by (apply pow2_lt_inv; lra). lia.
Qed.

(** An integer below 2^53 is a binary64 number. *)
Lemma toDouble_exact : forall t : Z,
  0 <= t < 2 ^ 53 -> (Mongo.toDouble t == inject_Z t)%Q.
Proof.
  intros t [H0 H1]. unfold Mongo.toDouble.
  destruct (Z.eq_dec t 0) as [->|N]; [reflexivity|].
  assert (Hq : (0 < inject_Z t)%Q).
  { change 0%Q with (inject_Z 0). rewrite <- Zlt_Qlt. lia. }
  rewrite (binary64_pos _ Hq). unfold round53.
  assert (K : Mongo.ilog2 (inject_Z t) <= 52).
  { apply ilog2_upper; [exact Hq|]. rewrite <- pow2_Z by lia.
    now rewrite <- Zlt_Qlt. }
  set (k := Mongo.ilog2 (inject_Z t)) in *.
  pose proof (pow2_pos (k - 52)) as PE.
  assert (P : (2 ^ (52 - k) * 2 ^ (k - 52) == 1)%Q).
  { rewrite <- pow2_plus. now replace (52 - k + (k - 52)) with 0 by lia. }
  assert (X : (inject_Z t / 2 ^ (k - 52) == inject_Z (t * 2 ^ (52 - k)))%Q).
  { rewrite inject_Z_mult, pow2_Z by lia. unfold Qdiv.
    replace (52 - k) with (- (k - 52)) by lia. now rewrite Qpower_opp. }
  rewrite (half_even_comp _ _ X), half_even_Z.
  rewrite inject_Z_mult, pow2_Z by lia. rewrite <- Qmult_assoc, P. ring.
Qed.

Lemma toDouble_monotone : forall a b : Z,
  a <= b -> (Mongo.toDouble a <= Mongo.toDouble b)%Q.
Proof.
  intros a b H. apply binary64_monotone. now rewrite <- Zle_Qle.
Qed.

Lemma toDouble_pos : forall c : Z, 0 < c -> (0 < Mongo.toDouble c)%Q.
Proof.
  intros c H. apply binary64_sign.
  change 0%Q with (inject_Z 0). now rewrite <- Zlt_Qlt.
Qed.

(** The quotient grows with the dividend. *)
Lemma divide_monotone : forall a b c : Z,
  a <= b -> 0 < c -> (Mongo.divide a c <= Mongo.divide b c)%Q.
Proof.
  intros a b c H Hc. unfold Mongo.divide. apply binary64_monotone.
  pose proof (toDouble_pos c Hc) as P.
  apply Qmult_le_compat_r; [now apply toDouble_monotone|].
  now apply Qlt_le_weak, Qinv_lt_0_compat.
Qed.

Lemma divide_exact_operands : forall t c : Z,
  0 <= t < 2 ^ 53 -> 0 <= c < 2 ^ 53 ->
  (Mongo.divide t c == Mongo.binary64 (inject_Z t / inject_Z c))%Q.
Proof.
  intros t c Ht Hc. unfold Mongo.divide. apply binary64_comp.
  now rewrite (toDouble_exact t Ht), (toDouble_exact c Hc).
Qed.

(** One division and one rounding to hundredths give a hundredth nearest
    to the exact quotient, as long as half a unit in the last place of the
    quotient is less than the spacing [1 / c] of the exact quotients. *)
Lemma divide_round_nearest : forall t v K : Z,
  0 <= t < 2 ^ 53 -> 0 < v -> 200 * v < 2 ^ 53 ->
  t < 200 * v * 2 ^ (K + 1) -> 0 <= K + 1 ->
  (inject_Z (200 * v) * 2 ^ (K - 53) < 1)%Q ->
  Z.abs (2 * v * Mongo.half_even (Mongo.divide t (200 * v) * inject_Z 100) - t) <= v.
Proof.
  intros t v K Ht Hv Hc HK HK0 Hh.
  set (c := 200 * v) in *.
  assert (Hc0 : 0 <= c < 2 ^ 53) by (unfold c; lia).
  destruct (Z.eq_dec t 0) as [->|N].
  - assert (E : (Mongo.divide 0 c * inject_Z 100 == inject_Z 0)%Q).
    { rewrite divide_exact_operands by (try exact Hc0; lia).
      rewrite binary64_zero; [reflexivity|]. unfold Qdiv. ring. }
    rewrite (half_even_comp _ _ E), half_even_Z. lia.
  - assert (Qc : (0 < inject_Z c)%Q).
    { change 0%Q with (inject_Z 0). rewrite <- Zlt_Qlt. unfold c. lia. }
    assert (Qt : (0 < inject_Z t)%Q).
    { change 0%Q with (inject_Z 0). rewrite <- Zlt_Qlt. lia. }
    set (q := (inject_Z t / inject_Z c)%Q).
    assert (Hq : (0 < q)%Q).
    { unfold q. apply Qlt_shift_div_l; [exact Qc|]. lra. }
    assert (Hq2 : (q < 2 ^ (K + 1))%Q).
    { unfold q. apply Qlt_shift_div_r; [exact Qc|].
      rewrite <- pow2_Z by lia. rewrite <- inject_Z_mult, <- Zlt_Qlt.
      unfold c. lia. }
    pose proof (ilog2_upper q K Hq Hq2) as HKq.
    pose proof (round53_error q Hq) as Err.
    assert (Hp : (2 ^ (Mongo.ilog2 q - 53) <= 2 ^ (K - 53))%Q) by (apply pow2_le; lia).
    assert (D : (Mongo.divide t c == round53 q)%Q).
    { rewrite divide_exact_operands by assumption. fold q.
      now rewrite binary64_pos. }
    pose proof (half_even_nearest (Mongo.divide t c * inject_Z 100)) as [N1 N2].
    set (n := Mongo.half_even (Mongo.divide t c * inject_Z 100)) in *.
    rewrite D in N1, N2.
    apply Qabs_Qle_condition in Err. destruct Err as [E1 E2].
    assert (Qq : (q * inject_Z c == inject_Z t)%Q) by (unfold q; field; lra).
    assert (Cv : (inject_Z c == 200 * inject_Z v)%Q).
    { unfold c. rewrite inject_Z_mult. reflexivity. }
    assert (Qv : (0 < inject_Z v)%Q).
    { change 0%Q with (inject_Z 0). now rewrite <- Zlt_Qlt. }
    change (inject_Z 100) with (100 # 1)%Q in N1, N2.
    set (x := round53 q) in *. set (h := (2 ^ (K - 53))%Q) in *.
    set (h' := (2 ^ (Mongo.ilog2 q - 53))%Q) in *.
    set (T := inject_Z t) in *. set (V := inject_Z v) in *.
    set (C := inject_Z c) in *. set (Nn := inject_Z n) in *.
    assert (B1 : (2 * V * Nn - T < V + 1)%Q) by nra.
    assert (B2 : (- (V + 1) < 2 * V * Nn - T)%Q) by nra.
    assert (Z1 : 2 * v * n - t < v + 1).
    { rewrite Zlt_Qlt. unfold Z.sub.
      rewrite !inject_Z_plus, inject_Z_opp, !inject_Z_mult.
      change (inject_Z 2) with 2%Q. change (inject_Z 1) with 1%Q.
      fold Nn T V. lra. }
    assert (Z2 : - (v + 1) < 2 * v * n - t).
    { rewrite Zlt_Qlt. unfold Z.sub.
      rewrite inject_Z_opp, !inject_Z_plus, inject_Z_opp, !inject_Z_mult.
      change (inject_Z 2) with 2%Q. change (inject_Z 1) with 1%Q.
      fold Nn T V. lra. }
    lia.
Qed.

Lemma derived_monotone : forall (a b : Z) (c : positive),
  a <= b ->
  (Mongo.round (Mongo.divide a (Zpos c)) 2
   <= Mongo.round (Mongo.divide b (Zpos c)) 2)%Q.
Proof.
  intros a b c H. apply round_monotone, divide_monotone; [exact H | reflexivity].
Qed.

(** ** [$round] and [$divide] against the reference notions *)

Lemma Qfloor_unique : forall (q : Q) (z : Z),
  (inject_Z z <= q < inject_Z (z + 1))%Q -> Qfloor q = z.
Proof.
  intros q z [H1 H2].
  pose proof (Qfloor_le q) as L. pose proof (Qlt_floor q) as U.
  assert (A : z <= Qfloor q).
  { rewrite <- (Qfloor_Z z). now apply Qfloor_resp_le. }
  assert (B : Qfloor q < z + 1).
  { rewrite Zlt_Qlt. eapply Qle_lt_trans; eassumption. }
  lia.
Qed.

(** The rounding of the model's [$round] is rounding half to even. *)
Lemma half_even_is_half_to_even : forall x : Q,
  Mongo.half_even x = half_to_even x.
Proof.
  intro x. unfold Mongo.half_even, half_to_even. cbv zeta.
  pose proof (Qfloor_le x) as L. pose proof (Qlt_floor x) as U.
  rewrite inject_Z_plus in U. change (inject_Z 1) with 1%Q in U.
  set (f := Qfloor x) in *.
  destruct (Qcompare_spec (x - inject_Z f) (1 # 2)) as [E|Lo|Hi].
  - assert (F : Qfloor (x + (1 # 2)) = f + 1).
    { apply Qfloor_unique. rewrite !inject_Z_plus.
      change (inject_Z 1) with 1%Q. split; lra. }
    rewrite F.
    assert (Q1 : Qeq_bool (x + (1 # 2)) (inject_Z (f + 1)) = true).
    { apply Qeq_bool_iff. rewrite inject_Z_plus.
      change (inject_Z 1) with 1%Q. lra. }
    rewrite Q1. cbn [andb].
    replace (f + 1) with (Z.succ f) by lia. rewrite Z.odd_succ.
    destruct (Z.even f); lia.
  - assert (F : Qfloor (x + (1 # 2)) = f).
    { apply Qfloor_unique. rewrite !inject_Z_plus.
      change (inject_Z 1) with 1%Q. split; lra. }
    rewrite F.
    assert (Q1 : Qeq_bool (x + (1 # 2)) (inject_Z f) = false).
    { apply not_true_iff_false. intro H. apply Qeq_bool_iff in H. lra. }
    now rewrite Q1.
  - assert (F : Qfloor (x + (1 # 2)) = f + 1).
    { apply Qfloor_unique. rewrite !inject_Z_plus.
      change (inject_Z 1) with 1%Q. split; lra. }
    rewrite F.
    assert (Q1 : Qeq_bool (x + (1 # 2)) (inject_Z (f + 1)) = false).
    { apply not_true_iff_false. intro H. apply Qeq_bool_iff in H.
      rewrite inject_Z_plus in H. change (inject_Z 1) with 1%Q in H. lra. }
    now rewrite Q1.
Qed.

Lemma round_is_round_half_to_even : forall (x : Q) (place : Z),
  Mongo.round x place = round_half_to_even x place.
Proof.
  intros x place. unfold Mongo.round, round_half_to_even. cbv zeta.
  now rewrite half_even_is_half_to_even.
Qed.

(** What [Mongo.binary64] gives is a double. *)
Lemma binary64_is_double : forall q : Q, is_double (Mongo.binary64 q).
Proof.
  intro q. destruct (Q_dec q 0) as [[L|G]|Z0].
  - rewrite (binary64_neg q L).
    assert (P : (0 < - q)%Q) by lra.
    destruct (mantissa_bounds (- q) P) as [M1 M2].
    exists (- Mongo.half_even (- q / 2 ^ (Mongo.ilog2 (- q) - 52))),
           (Mongo.ilog2 (- q) - 52).
    split; [lia|]. unfold round53. rewrite inject_Z_opp. ring.
  - rewrite (binary64_pos q G).
    destruct (mantissa_bounds q G) as [M1 M2].
    exists (Mongo.half_even (q / 2 ^ (Mongo.ilog2 q - 52))),
           (Mongo.ilog2 q - 52).
    split; [lia | reflexivity].
  - rewrite (binary64_zero q Z0). exists 0, 0. split; [discriminate | reflexivity].
Qed.

(** The quotient of the store is a double, and the exact quotient up to
    one rounding to 53 bits. *)
Lemma divide_double_quotient : forall t c : Z,
  0 <= t < 2 ^ 53 -> 0 < c < 2 ^ 53 ->
  double_quotient t c (Mongo.divide t c).
Proof.
  intros t c Ht Hc. split; [apply binary64_is_double|]. unfold quotient.
  assert (Qc : (0 < inject_Z c)%Q).
  { change 0%Q with (inject_Z 0). rewrite <- Zlt_Qlt. lia. }
  rewrite (divide_exact_operands t c) by lia.
  destruct (Z.eq_dec t 0) as [->|N].
  - assert (Z0 : (inject_Z 0 / inject_Z c == 0)%Q)
      by (change (inject_Z 0) with 0%Q; unfold Qdiv; ring).
    rewrite (binary64_zero _ Z0), Z0. vm_compute. discriminate.
  - assert (Qt : (0 < inject_Z t)%Q).
    { change 0%Q with (inject_Z 0). rewrite <- Zlt_Qlt. lia. }
    set (q := (inject_Z t / inject_Z c)%Q).
    assert (Hq : (0 < q)%Q).
    { unfold q. apply Qlt_shift_div_l; [exact Qc|]. lra. }
    rewrite (binary64_pos q Hq).
    pose proof (round53_error q Hq) as Err.
    destruct (ilog2_spec q Hq) as [S _].
    assert (P : (2 ^ (Mongo.ilog2 q - 53) == 2 ^ Mongo.ilog2 q * 2 ^ (-53))%Q).
    { rewrite <- pow2_plus. reflexivity. }
    pose proof (pow2_pos (-53)) as PP.
    rewrite P in Err. eapply Qle_trans; [exact Err|].
    apply Qmult_le_compat_r; [exact S | now apply Qlt_le_weak].
Qed.

(** A hundredth [n / 100] with [2 v n] within [v] of [t] is a hundredth
    nearest to [t / (200 v)]. *)
Lemma hundredth_nearest : forall t v n : Z,
  0 < v -> Z.abs (2 * v * n - t) <= v ->
  nearest_hundredth (quotient t (200 * v)) (n # 100).
Proof.
  intros t v n Hv H. exists n. split; [reflexivity|].
  assert (H1 : 2 * v * n <= v + t) by lia.
  assert (H2 : t <= v + 2 * v * n) by lia.
  rewrite Zle_Qle in H1, H2.
  rewrite ?inject_Z_plus, ?inject_Z_mult in H1, H2.
  change (inject_Z 2) with 2%Q in *.
  assert (Qv : (0 < inject_Z v)%Q).
  { change 0%Q with (inject_Z 0). now rewrite <- Zlt_Qlt. }
  unfold quotient. rewrite inject_Z_mult. change (inject_Z 200) with 200%Q.
  assert (E : (n # 100 == inject_Z n * (1 # 100))%Q).
  { unfold Qeq, Qmult, inject_Z; cbn [Qnum Qden]. lia. }
  set (T := inject_Z t) in *. set (V := inject_Z v) in *.
  set (N := inject_Z n) in *.
  assert (X : (T / (200 * V) * (200 * V) == T)%Q) by (field; lra).
  set (x := (T / (200 * V))%Q) in *.
  apply Qabs_Qle_condition. rewrite E. split; nra.
Qed.

Lemma round_divide_nearest : forall t v K : Z,
  0 <= t < 2 ^ 53 -> 0 < v -> 200 * v < 2 ^ 53 ->
  t < 200 * v * 2 ^ (K + 1) -> 0 <= K + 1 ->
  (inject_Z (200 * v) * 2 ^ (K - 53) < 1)%Q ->
  nearest_hundredth (quotient t (200 * v))
    (Mongo.round (Mongo.divide t (200 * v)) 2).
Proof.
  intros t v K Ht Hv Hc HK HK0 Hh. rewrite round_2.
  apply hundredth_nearest; [exact Hv|].
  now apply (divide_round_nearest t v K).
Qed.

(** The minutes and the hours the store derives from a total below 2^53
    milliseconds. *)
Lemma minutes_shown : forall t : Z,
  0 <= t < 2 ^ 53 -> shown t 60000 (Mongo.round (Mongo.divide t 60000) 2).
Proof.
  intros t Ht. split.
  - exists (Mongo.divide t 60000). split.
    + apply divide_double_quotient; [exact Ht | split; reflexivity].
    + apply round_is_round_half_to_even.
  - change 60000 with (200 * 300).
    apply (round_divide_nearest t 300 37); try reflexivity; try exact Ht.
    + change (200 * 300 * 2 ^ (37 + 1)) with 16492674416640000.
      change (2 ^ 53) with 9007199254740992 in Ht. lia.
    + discriminate.
Qed.

Lemma hours_shown : forall t : Z,
  0 <= t < 2 ^ 53 -> shown t 3600000 (Mongo.round (Mongo.divide t 3600000) 2).
Proof.
  intros t Ht. split.
  - exists (Mongo.divide t 3600000). split.
    + apply divide_double_quotient; [exact Ht | split; reflexivity].
    + apply round_is_round_half_to_even.
  - change 3600000 with (200 * 18000).
    apply (round_divide_nearest t 18000 31); try reflexivity; try exact Ht.
    + change (200 * 18000 * 2 ^ (31 + 1)) with 15461882265600000.
      change (2 ^ 53) with 9007199254740992 in Ht. lia.
    + discriminate.
Qed.

Lemma derived_shown_for : forall t : Z,
  0 <= t < 2 ^ 53 ->
  shown_for t (Mongo.round (Mongo.divide t 60000) 2)
    (Mongo.round (Mongo.divide t 3600000) 2).
Proof.
  intros t Ht. split; [now apply minutes_shown | now apply hours_shown].
Qed.

(** Minutes in descending order leave the totals in descending order up
    to the rounding step of 600 ms. *)
Lemma nearest_minutes_order : forall (ta tb : Z) (ma mb : Q),
  nearest_hundredth (quotient ta 60000) ma ->
  nearest_hundredth (quotient tb 60000) mb ->
  (mb <= ma)%Q -> tb <= ta + 600.
Proof.
  intros ta tb ma mb [na [_ Ha]] [nb [_ Hb]] H.
  apply Qabs_Qle_condition in Ha, Hb. unfold quotient in Ha, Hb.
  rewrite Zle_Qle, inject_Z_plus.
  change (inject_Z 600) with (600 # 1)%Q.
  change (inject_Z 60000) with (60000 # 1)%Q in *.
  unfold Qdiv in *. change (/ (60000 # 1))%Q with (1 # 60000)%Q in *.
  lra.
Qed.

(** * The reports *)

(** ** The model on the sample data *)

Example filter_range :
  Mongo.q_ts_gte filter = 1704067200000 /\ Mongo.q_ts_lt filter = 1735689600000.
Proof. split; reflexivity. Qed.

Example dateToString_leap_day :
  Mongo.dateToString (Date_UTC 2024 2 29 + 86399999) = "2024-02-29".
Proof. reflexivity. Qed.

Example three_plays_by_time {TB : Mongo.TieBreak} :
  map (fun r => (TopTracksByPlayTime.R.track_name r,
                 TopTracksByPlayTime.R.total_mins_played r))
      (getTopTracksByPlayTime three_plays)
  = [ ("Track A", 500 # 100); ("Track B", 83 # 100) ].
Proof. reflexivity. Qed.

Example three_plays_by_count {TB : Mongo.TieBreak} :
  map (fun r => (TopTracksByPlayCount.G.track_name r,
                 TopTracksByPlayCount.G.total_play_count r))
      (getTopTracksByPlayCount three_plays)
  = [ ("Track A", 2); ("Track B", 1) ].
Proof. reflexivity. Qed.

(** Two albums with equal rounded minutes come out in either order,
    as the store chooses. *)
Example tie_break_decides :
  map TopAlbumsByPlayTime.R._id
    (getTopAlbumsByPlayTime (TB := keep_input_order) close_albums)
  = ["Album X"; "Album Y"]
  /\ map TopAlbumsByPlayTime.R._id
       (getTopAlbumsByPlayTime (TB := reverse_input_order) close_albums)
     = ["Album Y"; "Album X"].
Proof. split; vm_compute; reflexivity. Qed.

(** The quotients of the store are doubles: 30300 ms are shown as 0.51
    minutes, 54000 ms as 0.01 hours, 67500 ms as 1.12 minutes. *)
Example double_quotients :
  Mongo.round (Mongo.divide 30300 60000) 2 = 51 # 100
  /\ Mongo.round (Mongo.divide 54000 3600000) 2 = 1 # 100
  /\ Mongo.round (Mongo.divide 67500 60000) 2 = 112 # 100
  /\ (quotient 30300 60000 < Mongo.divide 30300 60000)%Q
  /\ (Mongo.divide 54000 3600000 < quotient 54000 3600000)%Q
  /\ (Mongo.divide 67500 60000 == quotient 67500 60000)%Q.
Proof. repeat split; vm_compute; reflexivity. Qed.

Example three_plays_summary :
  getTotalMinsPlayed three_plays = Ok (583 # 100)
  /\ getTotalUniqueTracksPlayed three_plays = Ok 2.
Proof. split; reflexivity. Qed.

Example not_audio_is_skipped :
  importPlays sample_JSON_parse
    {| dir := Some [ ("not-audio.json", Unreadable) ];
       imported_plays := [];
       console := [] |}
  = (Ok tt,
     {| dir := Some [ ("not-audio.json", Unreadable) ];
        imported_plays := [];
        console := [ {| style := Plain;
                        pieces := [Text "skipping invalid file";
                                   Text "not-audio.json"] |} ] |}).
Proof. reflexivity. Qed.

Example empty_batch_is_skipped :
  fst (importPlays sample_JSON_parse
         {| dir := Some [ (audio_2024, File "[]") ];
            imported_plays := [];
            console := [] |})
  = Ok tt.
Proof. reflexivity. Qed.

(** ** The claims on the reports *)


Lemma sum_bucket_filter : forall (K : Type) (eqb : K -> K -> bool)
  (key : PlayRecord -> K) (docs : list PlayRecord) (b : Mongo.Bucket PlayRecord K),
  (forall a b, eqb a b = true <-> a = b) ->
  In b (Mongo.buckets eqb key docs) ->
  Mongo.sum ms_played b = total_ms (with_key eqb key (Mongo.bucket_id b) docs).
Proof.
  intros K eqb key docs b Heq Hb. rewrite sum_bucket.
  now rewrite (bucket_docs_filter eqb key Heq docs b Hb).
Qed.

Lemma matches_ms_played : forall d : PlayRecord,
  Mongo.matches filter d = true -> 30000 <= ms_played d.
Proof.
  intros d M. unfold Mongo.matches in M.
  repeat (apply andb_true_iff in M; let M' := fresh "M" in destruct M as [M M']).
  cbn [filter Mongo.q_ms_played_gte] in *.
  match goal with H : (30000 <=? ms_played d) = true |- _ =>
    now apply Z.leb_le in H end.
Qed.

Lemma filtered_ms_nonneg : forall db : Collection,
  Forall (fun d => 0 <= ms_played d) (Mongo.match_ filter db).
Proof.
  intro db. apply Forall_forall. intros d H. unfold Mongo.match_ in H.
  apply filter_In in H. destruct H as [_ M]. apply matches_ms_played in M. lia.
Qed.

Lemma total_ms_filter_bounds : forall (f : PlayRecord -> bool)
  (docs : list PlayRecord),
  Forall (fun d => 0 <= ms_played d) docs ->
  0 <= total_ms (List.filter f docs) <= total_ms docs.
Proof.
  intros f docs H. induction H as [|d docs Hd H IH].
  - unfold total_ms; simpl. lia.
  - simpl. destruct (f d); unfold total_ms in *; simpl; lia.
Qed.

Lemma filtered_total_nonneg : forall db : Collection,
  0 <= total_ms (Mongo.match_ filter db).
Proof.
  intro db.
  pose proof (total_ms_filter_bounds (fun _ => true) _ (filtered_ms_nonneg db))
    as H.
  lia.
Qed.

(** The total of a group is at most the total of the filtered set. *)
Lemma group_ms_bounds : forall (key : PlayRecord -> string) (k : string)
  (db : Collection),
  total_ms (Mongo.match_ filter db) < 2 ^ 53 ->
  0 <= total_ms (with_key String.eqb key k (Mongo.match_ filter db)) < 2 ^ 53.
Proof.
  intros key k db H. unfold with_key.
  pose proof (total_ms_filter_bounds (fun d => String.eqb k (key d)) _
                (filtered_ms_nonneg db)) as B.
  lia.
Qed.


(** C7. The millisecond totals of the track groups of Top Tracks by Time,
    all of them, add up to the millisecond sum of the filtered set, after
    the group stage and after the sort stage; the groups have distinct
    track identifiers and each total is the sum over the filtered records
    of its track. *)
Theorem top_tracks_groups_partition {TB : Mongo.TieBreak} :
  forall db : Collection,
  sum_Z (map TopTracksByPlayTime.G.total_ms_played (TopTracksByPlayTime.grouped db))
  = total_ms (Mongo.match_ filter db)
  /\ sum_Z (map TopTracksByPlayTime.G.total_ms_played (TopTracksByPlayTime.sorted db))
     = total_ms (Mongo.match_ filter db)
  /\ NoDup (map TopTracksByPlayTime.G._id (TopTracksByPlayTime.grouped db))
  /\ Forall (fun g =>
               TopTracksByPlayTime.G.total_ms_played g
               = total_ms (with_key String.eqb spotify_track_uri
                             (TopTracksByPlayTime.G._id g)
                             (Mongo.match_ filter db)))
            (TopTracksByPlayTime.grouped db).
Proof.
  intro db.
  assert (Hg : sum_Z (map TopTracksByPlayTime.G.total_ms_played
                        (TopTracksByPlayTime.grouped db))
               = total_ms (Mongo.match_ filter db)).
  { unfold TopTracksByPlayTime.grouped, Mongo.group. rewrite map_map; simpl.
    apply buckets_sum. }
  split; [exact Hg|]. split; [|split].
  - rewrite <- Hg. apply sum_Z_perm, Permutation_map, sort_desc_perm.
  - unfold TopTracksByPlayTime.grouped, Mongo.group. rewrite map_map; simpl.
    apply (buckets_spec String.eqb spotify_track_uri String.eqb_eq).
  - unfold TopTracksByPlayTime.grouped, Mongo.group.
    apply Forall_forall. intros g Hg'. apply in_map_iff in Hg'.
    destruct Hg' as [b [<- Hb]]; simpl.
    now apply sum_bucket_filter; [apply String.eqb_eq|].
Qed.

Lemma getTotalMinsPlayed_nonempty : forall db : Collection,
  Mongo.match_ filter db <> [] ->
  getTotalMinsPlayed db
  = Ok (Mongo.round (Mongo.divide (total_ms (Mongo.match_ filter db)) 60000) 2).
Proof.
  intros db Hne.
  unfold getTotalMinsPlayed, TotalMinsPlayed.aggregate, TotalMinsPlayed.grouped,
    Mongo.group, Mongo.project.
  destruct (Mongo.match_ filter db) as [|d l]; [congruence|].
  rewrite buckets_null; simpl. now rewrite sum_bucket.
Qed.



(** C6. When some record matches the filter, [getTotalUniqueTracksPlayed]
    returns the number of distinct track identifiers in the filtered
    set. *)
Theorem getTotalUniqueTracksPlayed_value : forall db : Collection,
  Mongo.match_ filter db <> [] ->
  getTotalUniqueTracksPlayed db = Ok (distinct_tracks (Mongo.match_ filter db)).
Proof.
  intros db Hne.
  unfold getTotalUniqueTracksPlayed, TotalUniqueTracksPlayed.aggregate,
    TotalUniqueTracksPlayed.grouped, Mongo.group, Mongo.count, distinct_tracks.
  pose proof (buckets_nonempty String.eqb spotify_track_uri String.eqb_eq _ Hne)
    as Hb.
  pose proof (buckets_count String.eqb spotify_track_uri String.eqb_eq string_dec
                (Mongo.match_ filter db)) as Hc.
  rewrite <- Hc.
  destruct (Mongo.buckets String.eqb spotify_track_uri (Mongo.match_ filter db))
    as [|b bs]; [congruence|].
  cbn [map List.length TotalUniqueTracksPlayed.R.unique_tracks_played].
  now rewrite length_map.
Qed.

Lemma getTotalUniqueTracksPlayed_value_witness :
  Mongo.match_ filter three_plays <> []
  /\ getTotalUniqueTracksPlayed three_plays
     = Ok (distinct_tracks (Mongo.match_ filter three_plays)).
Proof.
  split; [vm_compute; discriminate|].
  apply (getTotalUniqueTracksPlayed_value three_plays).
  vm_compute. discriminate.
Defined.

(** ** The shared filter *)

Lemma match_excluded : forall (e : PlayRecord) (s1 s2 : Collection),
  Mongo.matches filter e = false ->
  Mongo.match_ filter (s1 ++ e :: s2) = Mongo.match_ filter (s1 ++ s2).
Proof.
  intros e s1 s2 H. unfold Mongo.match_. rewrite !filter_app; simpl.
  now rewrite H.
Qed.

(** C4. A record that is in incognito mode, or was played for less than
    30000 ms, or whose time stamp is before 2024-01-01T00:00:00Z or not
    before 2025-01-01T00:00:00Z, or whose track is in the exclusion list,
    does not match the filter, and none of the ten reports changes when
    the record is taken out of the collection. *)
Theorem filter_excludes_from_every_report {TB : Mongo.TieBreak} :
  forall e : PlayRecord,
  incognito_mode e = true
  \/ ms_played e < 30000
  \/ ts e < Date_UTC 2024 1 1
  \/ Date_UTC 2025 1 1 <= ts e
  \/ In (spotify_track_uri e) (Mongo.q_spotify_track_uri_nin filter) ->
  Mongo.matches filter e = false
  /\ forall s1 s2 : Collection,
       getTopTracksByPlayTime (s1 ++ e :: s2) = getTopTracksByPlayTime (s1 ++ s2)
       /\ getTopTracksByPlayCount (s1 ++ e :: s2) = getTopTracksByPlayCount (s1 ++ s2)
       /\ getTopAlbumsByPlayTime (s1 ++ e :: s2) = getTopAlbumsByPlayTime (s1 ++ s2)
       /\ getTopAlbumsByPlayCount (s1 ++ e :: s2) = getTopAlbumsByPlayCount (s1 ++ s2)
       /\ getTopArtistsByPlayTime (s1 ++ e :: s2) = getTopArtistsByPlayTime (s1 ++ s2)
       /\ getTopArtistsByPlayCount (s1 ++ e :: s2) = getTopArtistsByPlayCount (s1 ++ s2)
       /\ getTopDaysByPlayTime (s1 ++ e :: s2) = getTopDaysByPlayTime (s1 ++ s2)
       /\ getTopDaysByPlayCount (s1 ++ e :: s2) = getTopDaysByPlayCount (s1 ++ s2)
       /\ getTotalMinsPlayed (s1 ++ e :: s2) = getTotalMinsPlayed (s1 ++ s2)
       /\ getTotalUniqueTracksPlayed (s1 ++ e :: s2)
          = getTotalUniqueTracksPlayed (s1 ++ s2).
Proof.
  intros e H.
  assert (Hm : Mongo.matches filter e = false).
  { apply not_true_iff_false. intro M. unfold Mongo.matches in M.
    cbn [filter Mongo.q_incognito_mode Mongo.q_ms_played_gte Mongo.q_ts_gte
         Mongo.q_ts_lt] in M.
    repeat (apply andb_true_iff in M; let M' := fresh "M" in destruct M as [M M']).
    destruct H as [H|[H|[H|[H|H]]]].
    - rewrite H in M. discriminate.
    - apply Z.leb_le in M1. lia.
    - apply Z.leb_le in M3. lia.
    - apply Z.ltb_lt in M0. lia.
    - apply negb_true_iff in M2.
      assert (X : existsb (String.eqb (spotify_track_uri e))
                    (Mongo.q_spotify_track_uri_nin filter) = true).
      { apply existsb_exists. eexists. split; [exact H | apply String.eqb_refl]. }
      congruence. }
  split; [exact Hm|]. intros s1 s2.
  pose proof (match_excluded e s1 s2 Hm) as E.
  unfold getTopTracksByPlayTime, getTopTracksByPlayCount, getTopAlbumsByPlayTime,
    getTopAlbumsByPlayCount, getTopArtistsByPlayTime, getTopArtistsByPlayCount,
    getTopDaysByPlayTime, getTopDaysByPlayCount, getTotalMinsPlayed,
    getTotalUniqueTracksPlayed,
    TopTracksByPlayTime.aggregate, TopTracksByPlayTime.sorted,
    TopTracksByPlayTime.grouped,
    TopTracksByPlayCount.aggregate, TopTracksByPlayCount.sorted,
    TopTracksByPlayCount.grouped,
    TopAlbumsByPlayTime.aggregate, TopAlbumsByPlayTime.projected,
    TopAlbumsByPlayTime.grouped,
    TopAlbumsByPlayCount.aggregate, TopAlbumsByPlayCount.sorted,
    TopAlbumsByPlayCount.grouped,
    TopArtistsByPlayTime.aggregate, TopArtistsByPlayTime.sorted,
    TopArtistsByPlayTime.grouped,
    TopArtistsByPlayCount.aggregate, TopArtistsByPlayCount.sorted,
    TopArtistsByPlayCount.grouped,
    TopDaysByPlayTime.aggregate, TopDaysByPlayTime.sorted,
    TopDaysByPlayTime.grouped,
    TopDaysByPlayCount.aggregate, TopDaysByPlayCount.sorted,
    TopDaysByPlayCount.grouped,
    TotalMinsPlayed.aggregate, TotalMinsPlayed.grouped,
    TotalUniqueTracksPlayed.aggregate, TotalUniqueTracksPlayed.grouped.
  rewrite E. repeat split.
Qed.

Lemma filter_excludes_from_every_report_witness :
  incognito_mode incognito_play = true
  /\ Mongo.matches filter incognito_play = false
  /\ getTotalMinsPlayed ([] ++ incognito_play :: three_plays)
     = getTotalMinsPlayed ([] ++ three_plays).
Proof.
  split; [reflexivity|].
  split.
  - apply (filter_excludes_from_every_report (TB := keep_input_order)
             incognito_play).
    left. reflexivity.
  - apply (filter_excludes_from_every_report (TB := keep_input_order)
             incognito_play).
    left. reflexivity.
Defined.

(** ** The scalar summaries on an empty filtered set *)

Lemma main_throws_when_first_scalar_throws {TB : Mongo.TieBreak} :
  forall w : World,
  getTotalMinsPlayed (imported_plays w) = Throw TypeError ->
  main w = (Throw TypeError, w).
Proof.
  intros w H. unfold main, bind, query, lift. now rewrite H.
Qed.

(** C1, as the script has it.  When no record matches the filter the
    eight leaderboards are empty lists, but [getTotalMinsPlayed] and
    [getTotalUniqueTracksPlayed] throw a [TypeError] (they read a field
    of the missing first row), and the script stops there with nothing
    printed. *)
Theorem scalar_summaries_throw_on_empty {TB : Mongo.TieBreak} :
  forall db : Collection,
  Mongo.match_ filter db = [] ->
  getTotalMinsPlayed db = Throw TypeError
  /\ getTotalUniqueTracksPlayed db = Throw TypeError
  /\ (forall w : World, imported_plays w = db -> main w = (Throw TypeError, w))
  /\ getTopTracksByPlayTime db = []
  /\ getTopTracksByPlayCount db = []
  /\ getTopAlbumsByPlayTime db = []
  /\ getTopAlbumsByPlayCount db = []
  /\ getTopArtistsByPlayTime db = []
  /\ getTopArtistsByPlayCount db = []
  /\ getTopDaysByPlayTime db = []
  /\ getTopDaysByPlayCount db = [].
Proof.
  intros db E.
  assert (H1 : getTotalMinsPlayed db = Throw TypeError).
  { unfold getTotalMinsPlayed, TotalMinsPlayed.aggregate, TotalMinsPlayed.grouped.
    now rewrite E. }
  split; [exact H1|]. split.
  { unfold getTotalUniqueTracksPlayed, TotalUniqueTracksPlayed.aggregate,
      TotalUniqueTracksPlayed.grouped.
    now rewrite E. }
  split.
  { intros w <-. now apply main_throws_when_first_scalar_throws. }
  unfold getTopTracksByPlayTime, getTopTracksByPlayCount, getTopAlbumsByPlayTime,
    getTopAlbumsByPlayCount, getTopArtistsByPlayTime, getTopArtistsByPlayCount,
    getTopDaysByPlayTime, getTopDaysByPlayCount,
    TopTracksByPlayTime.aggregate, TopTracksByPlayTime.sorted,
    TopTracksByPlayTime.grouped,
    TopTracksByPlayCount.aggregate, TopTracksByPlayCount.sorted,
    TopTracksByPlayCount.grouped,
    TopAlbumsByPlayTime.aggregate, TopAlbumsByPlayTime.projected,
    TopAlbumsByPlayTime.grouped,
    TopAlbumsByPlayCount.aggregate, TopAlbumsByPlayCount.sorted,
    TopAlbumsByPlayCount.grouped,
    TopArtistsByPlayTime.aggregate, TopArtistsByPlayTime.sorted,
    TopArtistsByPlayTime.grouped,
    TopArtistsByPlayCount.aggregate, TopArtistsByPlayCount.sorted,
    TopArtistsByPlayCount.grouped,
    TopDaysByPlayTime.aggregate, TopDaysByPlayTime.sorted,
    TopDaysByPlayTime.grouped,
    TopDaysByPlayCount.aggregate, TopDaysByPlayCount.sorted,
    TopDaysByPlayCount.grouped.
  rewrite E. repeat split.
Qed.

Lemma scalar_summaries_throw_on_empty_witness :
  Mongo.match_ filter [incognito_play] = []
  /\ getTotalMinsPlayed [incognito_play] = Throw TypeError
  /\ getTotalUniqueTracksPlayed [incognito_play] = Throw TypeError.
Proof.
  split; [reflexivity|].
  split.
  - apply (scalar_summaries_throw_on_empty (TB := keep_input_order)
             [incognito_play]).
    reflexivity.
  - apply (scalar_summaries_throw_on_empty (TB := keep_input_order)
             [incognito_play]).
    reflexivity.
Defined.

(** ** The derived minutes and hours *)

Lemma StronglySorted_firstn : forall (A : Type) (R : A -> A -> Prop)
  (n : nat) (l : list A),
  StronglySorted R l -> StronglySorted R (firstn n l).
Proof.
  intros A R n. induction n as [|n IH]; intros l S; [constructor|].
  destruct l as [|a l]; [constructor|]. simpl.
  inversion S as [|a' l' Sl Ha]; subst. constructor; [now apply IH|].
  rewrite Forall_forall in *. intros x Hx. apply Ha.
  rewrite <- (firstn_skipn n l). apply in_or_app. now left.
Qed.

Lemma StronglySorted_weaken : forall (A : Type) (R R' : A -> A -> Prop)
  (P : A -> Prop) (l : list A),
  (forall a b, P a -> P b -> R a b -> R' a b) ->
  Forall P l -> StronglySorted R l -> StronglySorted R' l.
Proof.
  intros A R R' P l W HP S. induction S as [|a l S IH Ha]; [constructor|].
  inversion HP as [|a' l' Pa Pl]; subst. constructor; [now apply IH|].
  rewrite Forall_forall in *. intros x Hx. apply W; auto.
Qed.

(** Every row of a time leaderboard comes from one bucket of its group
    stage. *)
Ltac row_bucket H :=
  apply limit_In in H;
  repeat first
    [ apply sort_desc_In in H
    | let x := fresh "g" in
      let E := fresh "E" in
      apply in_map_iff in H; destruct H as [x [E H]]; subst ].

(** The minutes and hours of a row derived from a bucket of the filtered
    set. *)
Lemma bucket_shown_for : forall (key : PlayRecord -> string) (db : Collection)
  (b : Mongo.Bucket PlayRecord string),
  total_ms (Mongo.match_ filter db) < 2 ^ 53 ->
  In b (Mongo.buckets String.eqb key (Mongo.match_ filter db)) ->
  shown_for
    (total_ms (with_key String.eqb key (Mongo.bucket_id b)
                 (Mongo.match_ filter db)))
    (Mongo.round (Mongo.divide (Mongo.sum ms_played b) 60000) 2)
    (Mongo.round (Mongo.divide (Mongo.sum ms_played b) 3600000) 2).
Proof.
  intros key db b Hlt Hb.
  rewrite (sum_bucket_filter _ _ _ _ _ String.eqb_eq Hb).
  now apply derived_shown_for, group_ms_bounds.
Qed.

(** C9, as the script has it.  In the four time leaderboards and in the
    total, for a filtered set of less than 2^53 ms, the minutes are the
    group's integer millisecond sum divided by 60000 and the hours the
    same sum divided by 3600000, each quotient taken as a double and
    rounded once to two decimals with a half going to the even neighbour:
    a hundredth no further than 0.005 from the exact quotient of the
    integer sum.  The store's [$round] sends a double that lies half way
    between two hundredths to the even one. *)
Theorem derived_fields_from_double_quotient {TB : Mongo.TieBreak} :
  forall db : Collection,
  total_ms (Mongo.match_ filter db) < 2 ^ 53 ->
  Forall (fun row =>
            shown_for (track_ms db (TopTracksByPlayTime.R._id row))
              (TopTracksByPlayTime.R.total_mins_played row)
              (TopTracksByPlayTime.R.total_hours row))
         (getTopTracksByPlayTime db)
  /\ Forall (fun row =>
               shown_for (artist_ms db (TopArtistsByPlayTime.R._id row))
                 (TopArtistsByPlayTime.R.total_play_time_mins row)
                 (TopArtistsByPlayTime.R.total_play_time_hours row))
            (getTopArtistsByPlayTime db)
  /\ Forall (fun row =>
               shown_for (album_ms db (TopAlbumsByPlayTime.R._id row))
                 (TopAlbumsByPlayTime.R.total_play_time_mins row)
                 (TopAlbumsByPlayTime.R.total_play_time_hours row))
            (getTopAlbumsByPlayTime db)
  /\ Forall (fun row =>
               shown_for (day_ms db (TopDaysByPlayTime.R._id row))
                 (TopDaysByPlayTime.R.total_play_time_mins row)
                 (TopDaysByPlayTime.R.total_play_time_hours row))
            (getTopDaysByPlayTime db)
  /\ (getTotalMinsPlayed db = Throw TypeError
      \/ exists v : Q,
           getTotalMinsPlayed db = Ok v
           /\ shown (total_ms (Mongo.match_ filter db)) 60000 v)
  /\ (forall n : Z,
        Mongo.round ((2 * n + 1) # 200) 2
        = Qmake (if Z.even n then n else n + 1) 100).
Proof.
  intros db Hlt.
  repeat match goal with |- _ /\ _ => split end;
    try (apply Forall_forall; intros row H).
  - unfold getTopTracksByPlayTime, TopTracksByPlayTime.aggregate,
      TopTracksByPlayTime.sorted, TopTracksByPlayTime.grouped,
      Mongo.project, Mongo.group in H.
    row_bucket H. apply (bucket_shown_for _ _ _ Hlt H).
  - unfold getTopArtistsByPlayTime, TopArtistsByPlayTime.aggregate,
      TopArtistsByPlayTime.sorted, TopArtistsByPlayTime.grouped,
      Mongo.project, Mongo.group in H.
    row_bucket H. apply (bucket_shown_for _ _ _ Hlt H).
  - unfold getTopAlbumsByPlayTime, TopAlbumsByPlayTime.aggregate,
      TopAlbumsByPlayTime.projected, TopAlbumsByPlayTime.grouped,
      Mongo.project, Mongo.group in H.
    row_bucket H. apply (bucket_shown_for _ _ _ Hlt H).
  - unfold getTopDaysByPlayTime, TopDaysByPlayTime.aggregate,
      TopDaysByPlayTime.sorted, TopDaysByPlayTime.grouped,
      Mongo.project, Mongo.group in H.
    row_bucket H. apply (bucket_shown_for _ _ _ Hlt H).
  - destruct (Mongo.match_ filter db) as [|d l] eqn:E.
    + left. unfold getTotalMinsPlayed, TotalMinsPlayed.aggregate,
        TotalMinsPlayed.grouped. now rewrite E.
    + right. rewrite <- E in *. eexists. split.
      * apply getTotalMinsPlayed_nonempty. rewrite E. discriminate.
      * apply minutes_shown. split; [apply filtered_total_nonneg | exact Hlt].
  - apply round_tie.
Qed.

Lemma derived_fields_from_double_quotient_witness :
  total_ms (Mongo.match_ filter three_plays) < 2 ^ 53
  /\ Forall (fun row =>
               shown_for (track_ms three_plays (TopTracksByPlayTime.R._id row))
                 (TopTracksByPlayTime.R.total_mins_played row)
                 (TopTracksByPlayTime.R.total_hours row))
            (getTopTracksByPlayTime (TB := keep_input_order) three_plays).
Proof.
  split; [reflexivity|].
  apply (derived_fields_from_double_quotient (TB := keep_input_order)
           three_plays).
  reflexivity.
Defined.

(** The values shown are those of neither rounding of the exact quotient.
    67500 ms are 1.125 minutes, a double: the report shows 1.12, a half
    going away from zero gives 1.13.  30300 ms are 0.505 minutes, a little
    more as a double: the report shows 0.51, the exact quotient with its
    half going to the even neighbour gives 0.50.  54000 ms are 0.015
    hours, a little less as a double: the report shows 0.01, either
    rounding of the exact quotient gives 0.02. *)
Lemma minutes_tie_goes_to_even :
  (exists row,
     (forall TB : Mongo.TieBreak, getTopTracksByPlayTime [tie_play] = [row])
     /\ track_ms [tie_play] (TopTracksByPlayTime.R._id row) = 67500
     /\ TopTracksByPlayTime.R.total_mins_played row = 112 # 100
     /\ round_half_away_from_zero
          (quotient (track_ms [tie_play] (TopTracksByPlayTime.R._id row)) 60000) 2
        = 113 # 100
     /\ ~ (TopTracksByPlayTime.R.total_mins_played row
           == round_half_away_from_zero
                (quotient (track_ms [tie_play] (TopTracksByPlayTime.R._id row))
                   60000) 2)%Q)
  /\ (exists row,
        (forall TB : Mongo.TieBreak,
           getTopTracksByPlayTime [half_way_play] = [row])
        /\ track_ms [half_way_play] (TopTracksByPlayTime.R._id row) = 30300
        /\ TopTracksByPlayTime.R.total_mins_played row = 51 # 100
        /\ round_half_to_even
             (quotient (track_ms [half_way_play] (TopTracksByPlayTime.R._id row))
                60000) 2
           = 50 # 100)
  /\ (exists row,
        (forall TB : Mongo.TieBreak,
           getTopTracksByPlayTime [hour_tie_play] = [row])
        /\ track_ms [hour_tie_play] (TopTracksByPlayTime.R._id row) = 54000
        /\ TopTracksByPlayTime.R.total_hours row = 1 # 100
        /\ round_half_to_even
             (quotient (track_ms [hour_tie_play] (TopTracksByPlayTime.R._id row))
                3600000) 2
           = 2 # 100
        /\ round_half_away_from_zero
             (quotient (track_ms [hour_tie_play] (TopTracksByPlayTime.R._id row))
                3600000) 2
           = 2 # 100).
Proof.
  split; [|split].
  - eexists. split; [intro TB; vm_compute; reflexivity|].
    repeat split; try (vm_compute; reflexivity).
    intro H. vm_compute in H. discriminate.
  - eexists. split; [intro TB; vm_compute; reflexivity|].
    repeat split; vm_compute; reflexivity.
  - eexists. split; [intro TB; vm_compute; reflexivity|].
    repeat split; vm_compute; reflexivity.
Qed.

(** ** Top Albums by Time *)

Lemma two_albums_rows : forall TB : Mongo.TieBreak,
  getTopAlbumsByPlayTime close_albums_exchanged
  = getTopAlbumsByPlayTime close_albums
  /\ (map TopAlbumsByPlayTime.R._id (getTopAlbumsByPlayTime close_albums)
      = ["Album X"; "Album Y"]
      \/ map TopAlbumsByPlayTime.R._id (getTopAlbumsByPlayTime close_albums)
         = ["Album Y"; "Album X"]).
Proof.
  intro TB.
  unfold getTopAlbumsByPlayTime, TopAlbumsByPlayTime.aggregate.
  assert (E : TopAlbumsByPlayTime.projected close_albums_exchanged
              = TopAlbumsByPlayTime.projected close_albums)
    by (vm_compute; reflexivity).
  rewrite E. split; [reflexivity|].
  set (rows := TopAlbumsByPlayTime.projected close_albums).
  vm_compute in rows. subst rows.
  unfold Mongo.sort_desc, Mongo.insert_desc, fold_right, Mongo.goes_before.
  cbn [TopAlbumsByPlayTime.R.total_play_time_mins].
  change (Qle_bool (100 # 100) (100 # 100)) with true. cbv iota.
  destruct (Mongo.tie_break _ _ _); [left | right]; reflexivity.
Qed.

(** Album X (60000 ms) is listed before Album Y (60100 ms) by a store that
    keeps equal keys in input order.  Whatever the store does with equal
    keys, the stage that sorts sees the same rows when the two totals are
    exchanged, so that one of the two leaderboards is not in the order of
    the millisecond totals. *)
Lemma albums_not_in_ms_order :
  map TopAlbumsByPlayTime.R._id
    (getTopAlbumsByPlayTime (TB := keep_input_order) close_albums)
  = ["Album X"; "Album Y"]
  /\ album_ms close_albums "Album X" < album_ms close_albums "Album Y"
  /\ ~ StronglySorted
         (fun a b => album_ms close_albums (TopAlbumsByPlayTime.R._id b)
                     <= album_ms close_albums (TopAlbumsByPlayTime.R._id a))
         (getTopAlbumsByPlayTime (TB := keep_input_order) close_albums)
  /\ (forall TB : Mongo.TieBreak,
        getTopAlbumsByPlayTime close_albums_exchanged
        = getTopAlbumsByPlayTime close_albums
        /\ ~ (StronglySorted
                (fun a b =>
                   album_ms close_albums (TopAlbumsByPlayTime.R._id b)
                   <= album_ms close_albums (TopAlbumsByPlayTime.R._id a))
                (getTopAlbumsByPlayTime close_albums)
              /\ StronglySorted
                   (fun a b =>
                      album_ms close_albums_exchanged
                        (TopAlbumsByPlayTime.R._id b)
                      <= album_ms close_albums_exchanged
                           (TopAlbumsByPlayTime.R._id a))
                   (getTopAlbumsByPlayTime close_albums_exchanged))).
Proof.
  split; [vm_compute; reflexivity|].
  split; [vm_compute; reflexivity|].
  split.
  - intro S.
    set (l := getTopAlbumsByPlayTime close_albums) in *. vm_compute in l.
    subst l.
    inversion S as [|a l' S' F]; subst.
    inversion F as [|b l'' Hab F']; subst.
    vm_compute in Hab. now apply Hab.
  - intro TB. destruct (two_albums_rows TB) as [E O].
    split; [exact E|]. rewrite E. intros [S1 S2].
    remember (getTopAlbumsByPlayTime close_albums) as l eqn:El. clear El E.
    destruct l as [|a [|b [|c l]]]; try (destruct O; discriminate).
    inversion S1 as [|a1 l1 _ F1]; subst.
    inversion S2 as [|a2 l2 _ F2]; subst.
    inversion F1 as [|b1 l1' H1 _]; subst.
    inversion F2 as [|b2 l2' H2 _]; subst.
    destruct O as [O|O]; injection O as Ea Eb; rewrite Ea, Eb in H1, H2;
      vm_compute in H1, H2; [now apply H1 | now apply H2].
Qed.

(** C8, as the script has it.  [getTopAlbumsByPlayTime] filters, groups by
    album name, sums the milliseconds of each album, derives the rounded
    minutes and hours, sorts and takes the first ten; the rows are in
    descending order of the rounded minutes, each being the album's
    millisecond sum divided by 60000 as a double and rounded to two
    decimals, no further than 0.005 from the exact quotient (for a
    filtered set of less than 2^53 ms), so that a later album exceeds no
    earlier one by more than 600 ms. *)
Theorem top_albums_sorted_by_rounded_minutes {TB : Mongo.TieBreak} :
  forall db : Collection,
  total_ms (Mongo.match_ filter db) < 2 ^ 53 ->
  getTopAlbumsByPlayTime db
  = Mongo.limit 10
      (Mongo.sort_desc Qle_bool TopAlbumsByPlayTime.R.total_play_time_mins
         (Mongo.project TopAlbumsByPlayTime.project_stage
            (Mongo.group String.eqb master_metadata_album_album_name
               TopAlbumsByPlayTime.group_stage (Mongo.match_ filter db))))
  /\ StronglySorted
       (fun a b => (TopAlbumsByPlayTime.R.total_play_time_mins b
                    <= TopAlbumsByPlayTime.R.total_play_time_mins a)%Q)
       (getTopAlbumsByPlayTime db)
  /\ Forall (fun row =>
               shown (album_ms db (TopAlbumsByPlayTime.R._id row)) 60000
                 (TopAlbumsByPlayTime.R.total_play_time_mins row))
            (getTopAlbumsByPlayTime db)
  /\ StronglySorted
       (fun a b => album_ms db (TopAlbumsByPlayTime.R._id b)
                   <= album_ms db (TopAlbumsByPlayTime.R._id a) + 600)
       (getTopAlbumsByPlayTime db)
  /\ (List.length (getTopAlbumsByPlayTime db) <= 10)%nat.
Proof.
  intros db Hlt.
  assert (S : StronglySorted
                (fun a b => (TopAlbumsByPlayTime.R.total_play_time_mins b
                             <= TopAlbumsByPlayTime.R.total_play_time_mins a)%Q)
                (getTopAlbumsByPlayTime db)).
  { apply StronglySorted_firstn.
    eapply StronglySorted_weaken with (P := fun _ => True);
      [ | apply Forall_forall; intros; exact I
        | apply (sort_desc_sorted Qle_bool
                   TopAlbumsByPlayTime.R.total_play_time_mins
                   Qleb_total Qleb_trans) ].
    intros a b _ _ H. now apply Qle_bool_iff. }
  assert (F : Forall (fun row =>
                 shown (album_ms db (TopAlbumsByPlayTime.R._id row)) 60000
                   (TopAlbumsByPlayTime.R.total_play_time_mins row))
                (getTopAlbumsByPlayTime db)).
  { apply Forall_forall. intros row H.
    unfold getTopAlbumsByPlayTime, TopAlbumsByPlayTime.aggregate,
      TopAlbumsByPlayTime.projected, TopAlbumsByPlayTime.grouped,
      Mongo.project, Mongo.group in H.
    row_bucket H. apply (bucket_shown_for _ _ _ Hlt H). }
  split; [reflexivity|]. split; [exact S|]. split; [exact F|]. split.
  - eapply StronglySorted_weaken; [ | exact F | exact S ].
    intros a b Ha Hb H. cbv beta in Ha, Hb.
    exact (nearest_minutes_order _ _ _ _ (proj2 Ha) (proj2 Hb) H).
  - unfold getTopAlbumsByPlayTime, Mongo.limit. rewrite length_firstn. lia.
Qed.

Lemma top_albums_sorted_by_rounded_minutes_witness :
  total_ms (Mongo.match_ filter close_albums) < 2 ^ 53
  /\ StronglySorted
       (fun a b => album_ms close_albums (TopAlbumsByPlayTime.R._id b)
                   <= album_ms close_albums (TopAlbumsByPlayTime.R._id a) + 600)
       (getTopAlbumsByPlayTime (TB := keep_input_order) close_albums).
Proof.
  split; [reflexivity|].
  apply (top_albums_sorted_by_rounded_minutes (TB := keep_input_order)
           close_albums).
  reflexivity.
Defined.

(** * The importer and the script *)

(** ** Actions that leave the collection alone *)

Lemma keeps_store_ret : forall (A : Type) (a : A), keeps_store (ret a).
Proof. intros A a w. reflexivity. Qed.

Lemma keeps_store_lift : forall (A : Type) (r : result A), keeps_store (lift r).
Proof. intros A r w. reflexivity. Qed.

Lemma keeps_store_log : forall s ps, keeps_store (console_log s ps).
Proof. intros s ps w. reflexivity. Qed.

Lemma keeps_store_bind : forall (A B : Type) (m : M A) (k : A -> M B),
  keeps_store m -> (forall a, keeps_store (k a)) -> keeps_store (bind m k).
Proof.
  intros A B m k Hm Hk w. unfold bind. specialize (Hm w).
  destruct (m w) as [[a|e] w']; simpl in *; [|assumption].
  now rewrite Hk.
Qed.

Lemma keeps_store_for_of : forall (A : Type) (body : A -> M unit) (l : list A),
  (forall a, keeps_store (body a)) -> keeps_store (for_of body l).
Proof.
  intros A body l H. induction l as [|a l IH]; simpl.
  - apply keeps_store_ret.
  - apply keeps_store_bind; [apply H | intros _; exact IH].
Qed.

Lemma keeps_store_import_file : forall JSON_parse entry,
  keeps_store (import_file JSON_parse entry).
Proof.
  intros JSON_parse [file node]. unfold import_file.
  destruct (negb (endsWith ".json" file) || negb (includes "Audio" file)
            || isDirectory node); [apply keeps_store_log|].
  apply keeps_store_bind; [apply keeps_store_log | intros _].
  apply keeps_store_bind; [apply keeps_store_lift | intro fileContents].
  destruct (String.eqb fileContents ""); [apply keeps_store_log|].
  apply keeps_store_bind; [apply keeps_store_lift | intro plays].
  apply keeps_store_bind; [apply keeps_store_lift | intro len].
  destruct (strict_eq_zero len); [apply keeps_store_log|].
  apply keeps_store_bind; [apply keeps_store_lift | intro len'].
  apply keeps_store_log.
Qed.

Lemma keeps_store_importPlays : forall JSON_parse,
  keeps_store (importPlays JSON_parse).
Proof.
  intro JSON_parse. unfold importPlays. apply keeps_store_bind.
  - intro w. unfold readdirSync. now destruct (dir w).
  - intro files. apply keeps_store_for_of. apply keeps_store_import_file.
Qed.

(** ** Actions that only query the collection and write to the console *)

Lemma reads_store_only_ret : forall (A : Type) (a : A), reads_store_only (ret a).
Proof.
  intros A a. exists (fun _ => (Ok a, [])). intros [d s c]; unfold ret; simpl.
  now rewrite app_nil_r.
Qed.

Lemma reads_store_only_lift : forall (A : Type) (r : result A),
  reads_store_only (lift r).
Proof.
  intros A r. exists (fun _ => (r, [])). intros [d s c]; unfold lift; simpl.
  now rewrite app_nil_r.
Qed.

Lemma reads_store_only_query : forall (A : Type) (report : Collection -> A),
  reads_store_only (query report).
Proof.
  intros A report. exists (fun s => (Ok (report s), [])).
  intros [d s c]; unfold query; simpl. now rewrite app_nil_r.
Qed.

Lemma reads_store_only_log : forall s ps, reads_store_only (console_log s ps).
Proof.
  intros s ps. exists (fun _ => (Ok tt, [ {| style := s; pieces := ps |} ])).
  intros [d st c]. reflexivity.
Qed.

Lemma reads_store_only_bind : forall (A B : Type) (m : M A) (k : A -> M B),
  reads_store_only m -> (forall a, reads_store_only (k a)) ->
  reads_store_only (bind m k).
Proof.
  intros A B m k [f Hf] Hk.
  assert (Hk' : forall a, exists g : Collection -> result B * list Line,
             forall w, k a w = (fst (g (imported_plays w)),
                                {| dir := dir w;
                                   imported_plays := imported_plays w;
                                   console := console w
                                              ++ snd (g (imported_plays w)) |}))
    by exact Hk.
  exists (fun s =>
            match f s with
            | (Ok a, c1) =>
                (fst (k a {| dir := None; imported_plays := s; console := [] |}),
                 c1 ++ console
                         (snd (k a {| dir := None; imported_plays := s;
                                      console := [] |})))
            | (Throw e, c1) => (Throw e, c1)
            end).
  intro w. unfold bind. rewrite Hf.
  destruct (f (imported_plays w)) as [[a|e] c1]; simpl; [|reflexivity].
  destruct (Hk' a) as [g Hg]. rewrite !Hg; simpl. now rewrite app_assoc.
Qed.

Lemma reads_store_only_log_ranked : forall (R : Type) (fmt : R -> list Piece)
  (records : list R) (idx : Z),
  reads_store_only (log_ranked fmt idx records).
Proof.
  intros R fmt records. induction records as [|r rest IH]; intro idx; simpl.
  - apply reads_store_only_ret.
  - apply reads_store_only_bind; [apply reads_store_only_log | intros _; apply IH].
Qed.

Lemma reads_store_only_logSeries : forall (R : Type) (title : string)
  (records : list R) (fmt : R -> list Piece),
  reads_store_only (logSeries title records fmt).
Proof.
  intros R title records fmt. unfold logSeries.
  apply reads_store_only_bind; [apply reads_store_only_log | intros _].
  apply reads_store_only_bind; [apply reads_store_only_log_ranked | intros _].
  apply reads_store_only_log.
Qed.

Lemma reads_store_only_main {TB : Mongo.TieBreak} : reads_store_only main.
Proof.
  unfold main.
  repeat first
    [ apply reads_store_only_logSeries
    | apply reads_store_only_log
    | apply reads_store_only_query
    | apply reads_store_only_lift
    | apply reads_store_only_bind; [|intro] ].
Qed.

(** ** [importPlays] *)

(** A non-empty batch is decoded, and nothing reaches the collection. *)
Lemma importPlays_inserts_nothing :
  sample_JSON_parse "[{}]" = Some (Array [Object []])
  /\ fst (importPlays sample_JSON_parse one_batch) = Ok tt
  /\ console (snd (importPlays sample_JSON_parse one_batch))
     = [ {| style := Plain;
            pieces := [Text "processing file"; Text audio_2024] |};
         {| style := Plain;
            pieces := [Text "inserting records"; Val (Number 1)] |} ]
  /\ imported_plays (snd (importPlays sample_JSON_parse one_batch)) = []
  /\ ~ (exists records : Collection,
          records <> []
          /\ imported_plays (snd (importPlays sample_JSON_parse one_batch))
             = imported_plays one_batch ++ records).
Proof.
  repeat split; try (vm_compute; reflexivity).
  intros [records [Hne H]]. vm_compute in H. symmetry in H. contradiction.
Qed.

(** C2, as the script has it.  [importPlays] never changes the
    collection: for a file that passes the name checks and decodes to a
    non-empty array it logs the file name and the number of records and
    goes on, the insertion being disabled.  The script does not call
    [importPlays]: it leaves the collection as it is, and its outcome and
    output do not depend on the history directory. *)
Theorem importPlays_only_logs {TB : Mongo.TieBreak} :
  forall (JSON_parse : string -> option JS.value)
  (w : World),
  imported_plays (snd (importPlays JSON_parse w)) = imported_plays w
  /\ (forall (file contents : string) (item : JS.value) (items : list JS.value),
        endsWith ".json" file = true ->
        includes "Audio" file = true ->
        contents <> "" ->
        JSON_parse contents = Some (Array (item :: items)) ->
        import_file JSON_parse (file, File contents) w
        = (Ok tt,
           {| dir := dir w;
              imported_plays := imported_plays w;
              console :=
                (console w
                 ++ [ {| style := Plain;
                         pieces := [Text "processing file"; Text file] |} ])
                ++ [ {| style := Plain;
                        pieces := [Text "inserting records";
                                   Val (Number (Z.of_nat
                                                  (List.length (item :: items))))]
                     |} ] |}))
  /\ imported_plays (snd (main w)) = imported_plays w
  /\ (forall d : option (list (string * Node)),
        fst (main (with_dir d w)) = fst (main w)
        /\ console (snd (main (with_dir d w))) = console (snd (main w))).
Proof.
  intros JSON_parse w. split; [apply keeps_store_importPlays|]. split.
  - intros file contents item items Hjson Haudio Hne Hparse.
    unfold import_file. rewrite Hjson, Haudio. cbn [negb orb isDirectory].
    apply String.eqb_neq in Hne.
    unfold bind, console_log, lift, readFileSync, parse.
    cbn [dir imported_plays console]. rewrite Hne, Hparse.
    cbn [length_of strict_eq_zero].
    replace (Z.of_nat (List.length (item :: items)) =? 0) with false;
      [reflexivity|].
    symmetry. apply Z.eqb_neq. simpl List.length. lia.
  - destruct reads_store_only_main as [f Hf]. split.
    + now rewrite Hf.
    + intro d. rewrite !Hf. split; reflexivity.
Qed.

Lemma importPlays_only_logs_witness :
  endsWith ".json" audio_2024 = true
  /\ includes "Audio" audio_2024 = true
  /\ "[{}]" <> ""
  /\ sample_JSON_parse "[{}]" = Some (Array [Object []])
  /\ import_file sample_JSON_parse (audio_2024, File "[{}]") one_batch
     = (Ok tt,
        {| dir := dir one_batch;
           imported_plays := imported_plays one_batch;
           console :=
             (console one_batch
              ++ [ {| style := Plain;
                      pieces := [Text "processing file"; Text audio_2024] |} ])
             ++ [ {| style := Plain;
                     pieces := [Text "inserting records";
                                Val (Number (Z.of_nat
                                               (List.length [Object []])))] |} ]
        |}).
Proof.
  split; [reflexivity|]. split; [reflexivity|].
  split; [discriminate|]. split; [reflexivity|].
  apply (proj1 (proj2 (importPlays_only_logs (TB := keep_input_order)
                         sample_JSON_parse one_batch))).
  - reflexivity.
  - reflexivity.
  - discriminate.
  - reflexivity.
Defined.

(** C3, as the script has it.  A file that passes the name checks, is not
    empty and does not decode makes [JSON.parse] throw; nothing catches
    the [SyntaxError], so [importPlays] ends with it after the one log
    line for that file, and the files after it are not looked at. *)
Theorem importPlays_aborts_on_malformed_file :
  forall (JSON_parse : string -> option JS.value) (file contents : string)
         (rest : list (string * Node)) (store : Collection) (out : list Line),
    endsWith ".json" file = true ->
    includes "Audio" file = true ->
    contents <> "" ->
    JSON_parse contents = None ->
    importPlays JSON_parse
      {| dir := Some ((file, File contents) :: rest);
         imported_plays := store;
         console := out |}
    = (Throw SyntaxError,
       {| dir := Some ((file, File contents) :: rest);
          imported_plays := store;
          console := out ++ [ {| style := Plain;
                                 pieces := [Text "processing file"; Text file] |} ]
       |}).
Proof.
  intros JSON_parse file contents rest store out Hjson Haudio Hne Hparse.
  apply String.eqb_neq in Hne.
  unfold importPlays, bind, readdirSync. cbn [dir for_of].
  unfold bind, import_file. rewrite Hjson, Haudio. cbn [negb orb isDirectory].
  unfold bind, console_log, lift, readFileSync, parse.
  cbn [dir imported_plays console]. now rewrite Hne, Hparse.
Qed.

Lemma importPlays_aborts_on_malformed_file_witness :
  endsWith ".json" audio_2023 = true
  /\ includes "Audio" audio_2023 = true
  /\ "[{" <> ""
  /\ sample_JSON_parse "[{" = None
  /\ importPlays sample_JSON_parse bad_then_good
     = (Throw SyntaxError,
        {| dir := dir bad_then_good;
           imported_plays := [];
           console := [] ++ [ {| style := Plain;
                                 pieces := [Text "processing file";
                                            Text audio_2023] |} ] |}).
Proof.
  split; [reflexivity|]. split; [reflexivity|].
  split; [discriminate|]. split; [reflexivity|].
  apply (importPlays_aborts_on_malformed_file sample_JSON_parse audio_2023 "[{"
           [ (audio_2024, File "[{}]") ] [] []).
  - reflexivity.
  - reflexivity.
  - discriminate.
  - reflexivity.
Defined.

(** * Further properties of the reports *)

(** ** More on lists, sorting and rounding *)

Lemma StronglySorted_map : forall (A B : Type) (R : A -> A -> Prop)
  (R' : B -> B -> Prop) (f : A -> B) (l : list A),
  (forall a b, R a b -> R' (f a) (f b)) ->
  StronglySorted R l -> StronglySorted R' (map f l).
Proof.
  intros A B R R' f l H S. induction S as [|a l S IH Ha]; simpl; constructor.
  - exact IH.
  - rewrite Forall_forall in *. intros y Hy. apply in_map_iff in Hy.
    destruct Hy as [x [<- Hx]]. now apply H, Ha.
Qed.

Lemma NoDup_firstn_keep : forall (A : Type) (n : nat) (l : list A),
  NoDup l -> NoDup (firstn n l).
Proof.
  intros A n l H. rewrite <- (firstn_skipn n l) in H.
  now apply NoDup_app_remove_r in H.
Qed.

Lemma sort_desc_descending {TB : Mongo.TieBreak} :
  forall (A : Type) (field : A -> Z) (l : list A),
  descending field (Mongo.sort_desc Z.leb field l).
Proof.
  intros A field l. unfold descending.
  eapply StronglySorted_weaken with (P := fun _ => True);
    [ | apply Forall_forall; intros; exact I
      | apply (sort_desc_sorted Z.leb field Zleb_total Zleb_trans) ].
  intros a b _ _ H. now apply Z.leb_le.
Qed.

(** ** Order of the leaderboards *)

(** The four play-count rankings, before and after the limit, are in
    descending order of the count they sort on. *)
Theorem count_leaderboards_descending {TB : Mongo.TieBreak} :
  forall db : Collection,
  descending TopTracksByPlayCount.G.total_play_count
    (TopTracksByPlayCount.aggregate db)
  /\ descending TopAlbumsByPlayCount.G.total_track_plays_from_album_count
       (TopAlbumsByPlayCount.aggregate db)
  /\ descending TopArtistsByPlayCount.G.total_play_count
       (TopArtistsByPlayCount.aggregate db)
  /\ descending TopDaysByPlayCount.G.total_play_count
       (TopDaysByPlayCount.aggregate db)
  /\ descending TopTracksByPlayCount.G.total_play_count
       (getTopTracksByPlayCount db)
  /\ descending TopAlbumsByPlayCount.G.total_track_plays_from_album_count
       (getTopAlbumsByPlayCount db)
  /\ descending TopArtistsByPlayCount.G.total_play_count
       (getTopArtistsByPlayCount db)
  /\ descending TopDaysByPlayCount.G.total_play_count
       (getTopDaysByPlayCount db).
Proof.
  intro db.
  assert (D : descending TopDaysByPlayCount.G.total_play_count
                (TopDaysByPlayCount.aggregate db)).
  { unfold TopDaysByPlayCount.aggregate, Mongo.project.
    eapply StronglySorted_map;
      [ | apply (sort_desc_descending _ TopDaysByPlayCount.G.total_play_count) ].
    intros a b H. exact H. }
  repeat match goal with |- _ /\ _ => split end;
    try exact D;
    try (apply StronglySorted_firstn);
    try exact D;
    apply sort_desc_descending.
Qed.

(** In the track, artist and day leaderboards by time, which sort on the
    millisecond total before deriving the rounded fields, the minutes and
    the hours shown never increase down the list. *)
Theorem time_leaderboards_shown_descending {TB : Mongo.TieBreak} :
  forall db : Collection,
  descendingQ TopTracksByPlayTime.R.total_mins_played (getTopTracksByPlayTime db)
  /\ descendingQ TopTracksByPlayTime.R.total_hours (getTopTracksByPlayTime db)
  /\ descendingQ TopArtistsByPlayTime.R.total_play_time_mins
       (getTopArtistsByPlayTime db)
  /\ descendingQ TopArtistsByPlayTime.R.total_play_time_hours
       (getTopArtistsByPlayTime db)
  /\ descendingQ TopDaysByPlayTime.R.total_play_time_mins
       (getTopDaysByPlayTime db)
  /\ descendingQ TopDaysByPlayTime.R.total_play_time_hours
       (getTopDaysByPlayTime db).
Proof.
  intro db.
  repeat match goal with |- _ /\ _ => split end;
    apply StronglySorted_firstn;
    (eapply StronglySorted_map; [ | apply sort_desc_descending ]);
    intros a b H; simpl; now apply derived_monotone.
Qed.

Lemma sort_desc_descendingQ {TB : Mongo.TieBreak} :
  forall (A : Type) (field : A -> Q) (l : list A),
  descendingQ field (Mongo.sort_desc Qle_bool field l).
Proof.
  intros A field l. unfold descendingQ.
  eapply StronglySorted_weaken with (P := fun _ => True);
    [ | apply Forall_forall; intros; exact I
      | apply (sort_desc_sorted Qle_bool field Qleb_total Qleb_trans) ].
  intros a b _ _ H. now apply Qle_bool_iff.
Qed.

Lemma sorted_cut : forall (A : Type) (R : A -> A -> Prop) (n : nat) (l : list A),
  StronglySorted R l ->
  Forall (fun kept => Forall (fun cut => R kept cut) (skipn n l)) (firstn n l).
Proof.
  intros A R n. induction n as [|n IH]; intros l S; [constructor|].
  destruct l as [|a l]; [constructor|]. simpl.
  inversion S as [|a' l' Sl Ha]; subst. constructor; [|now apply IH].
  rewrite Forall_forall in *. intros x Hx. apply Ha.
  rewrite <- (firstn_skipn n l). apply in_or_app. now right.
Qed.

(** No document that the limit of ten cuts off has a larger sort key (for
    the time leaderboards: more minutes shown) than a document that it
    keeps. *)
Theorem limit_keeps_the_top {TB : Mongo.TieBreak} : forall db : Collection,
  Forall (fun kept =>
            Forall (fun cut => (TopTracksByPlayTime.R.total_mins_played cut
                                <= TopTracksByPlayTime.R.total_mins_played kept)%Q)
                   (skipn 10 (TopTracksByPlayTime.aggregate db)))
         (getTopTracksByPlayTime db)
  /\ Forall (fun kept =>
               Forall (fun cut => TopTracksByPlayCount.G.total_play_count cut
                                  <= TopTracksByPlayCount.G.total_play_count kept)
                      (skipn 10 (TopTracksByPlayCount.aggregate db)))
            (getTopTracksByPlayCount db)
  /\ Forall (fun kept =>
               Forall (fun cut =>
                         (TopAlbumsByPlayTime.R.total_play_time_mins cut
                          <= TopAlbumsByPlayTime.R.total_play_time_mins kept)%Q)
                      (skipn 10 (TopAlbumsByPlayTime.aggregate db)))
            (getTopAlbumsByPlayTime db)
  /\ Forall (fun kept =>
               Forall (fun cut =>
                         TopAlbumsByPlayCount.G.total_track_plays_from_album_count cut
                         <= TopAlbumsByPlayCount.G.total_track_plays_from_album_count
                              kept)
                      (skipn 10 (TopAlbumsByPlayCount.aggregate db)))
            (getTopAlbumsByPlayCount db)
  /\ Forall (fun kept =>
               Forall (fun cut =>
                         (TopArtistsByPlayTime.R.total_play_time_mins cut
                          <= TopArtistsByPlayTime.R.total_play_time_mins kept)%Q)
                      (skipn 10 (TopArtistsByPlayTime.aggregate db)))
            (getTopArtistsByPlayTime db)
  /\ Forall (fun kept =>
               Forall (fun cut => TopArtistsByPlayCount.G.total_play_count cut
                                  <= TopArtistsByPlayCount.G.total_play_count kept)
                      (skipn 10 (TopArtistsByPlayCount.aggregate db)))
            (getTopArtistsByPlayCount db)
  /\ Forall (fun kept =>
               Forall (fun cut =>
                         (TopDaysByPlayTime.R.total_play_time_mins cut
                          <= TopDaysByPlayTime.R.total_play_time_mins kept)%Q)
                      (skipn 10 (TopDaysByPlayTime.aggregate db)))
            (getTopDaysByPlayTime db)
  /\ Forall (fun kept =>
               Forall (fun cut => TopDaysByPlayCount.G.total_play_count cut
                                  <= TopDaysByPlayCount.G.total_play_count kept)
                      (skipn 10 (TopDaysByPlayCount.aggregate db)))
            (getTopDaysByPlayCount db).
Proof.
  intro db.
  repeat match goal with |- _ /\ _ => split end;
    apply sorted_cut;
    first
      [ apply sort_desc_descending
      | apply sort_desc_descendingQ
      | eapply StronglySorted_map;
        [ | apply sort_desc_descending ];
        intros a b H; simpl; first [ exact H | now apply derived_monotone ] ].
Qed.

(** ** What the stages keep *)

Lemma sum_ones : forall (D : Type) (l : list D),
  sum_Z (map (fun _ => 1) l) = Z.of_nat (List.length l).
Proof.
  intros D l. induction l as [|d l IH]; [reflexivity|].
  cbn [map sum_Z fold_right List.length] in *. unfold sum_Z in IH. lia.
Qed.

Lemma count_bucket : forall (D K : Type) (b : Mongo.Bucket D K),
  Mongo.sum (fun _ => 1) b = Z.of_nat (List.length (Mongo.bucket_docs b)).
Proof. intros D K b. rewrite sum_bucket. apply sum_ones. Qed.

Lemma bucket_plays_of : forall (key : PlayRecord -> string) (db : Collection)
  (b : Mongo.Bucket PlayRecord string),
  In b (Mongo.buckets String.eqb key (Mongo.match_ filter db)) ->
  Mongo.bucket_docs b = plays_of key (Mongo.bucket_id b) db.
Proof.
  intros key db b H. unfold plays_of, with_key.
  now apply (bucket_docs_filter String.eqb key String.eqb_eq).
Qed.

Section Stages.
Context {G : Type}.
Variable id : G -> string.

Lemma group_ids : forall (key : PlayRecord -> string)
  (acc : Mongo.Bucket PlayRecord string -> G) (docs : list PlayRecord),
  (forall b, id (acc b) = Mongo.bucket_id b) ->
  map id (Mongo.group String.eqb key acc docs)
  = map Mongo.bucket_id (Mongo.buckets String.eqb key docs).
Proof.
  intros key acc docs H. unfold Mongo.group. rewrite map_map.
  apply map_ext. exact H.
Qed.

Lemma group_NoDup : forall (key : PlayRecord -> string)
  (acc : Mongo.Bucket PlayRecord string -> G) (docs : list PlayRecord),
  (forall b, id (acc b) = Mongo.bucket_id b) ->
  NoDup (map id (Mongo.group String.eqb key acc docs)).
Proof.
  intros key acc docs H. rewrite (group_ids key acc docs H).
  apply (buckets_spec String.eqb key String.eqb_eq).
Qed.

Lemma group_length : forall (key : PlayRecord -> string)
  (acc : Mongo.Bucket PlayRecord string -> G) (docs : list PlayRecord),
  List.length (Mongo.group String.eqb key acc docs) = distinct_keys key docs.
Proof.
  intros key acc docs. unfold Mongo.group, distinct_keys. rewrite length_map.
  apply (buckets_count String.eqb key String.eqb_eq).
Qed.

Lemma sort_NoDup {TB : Mongo.TieBreak} :
  forall (T : Type) (leb : T -> T -> bool) (field : G -> T)
  (l : list G),
  NoDup (map id l) -> NoDup (map id (Mongo.sort_desc leb field l)).
Proof.
  intros T leb field l H.
  eapply Permutation_NoDup; [|exact H].
  apply Permutation_map, Permutation_sym, sort_desc_perm.
Qed.

Lemma limit_NoDup : forall (n : nat) (l : list G),
  NoDup (map id l) -> NoDup (map id (Mongo.limit n l)).
Proof.
  intros n l H. unfold Mongo.limit. rewrite <- firstn_map.
  now apply NoDup_firstn_keep.
Qed.

Lemma project_NoDup : forall (G' : Type) (id' : G' -> string) (f : G -> G')
  (l : list G),
  (forall g, id' (f g) = id g) ->
  NoDup (map id l) -> NoDup (map id' (Mongo.project f l)).
Proof.
  intros G' id' f l H ND. unfold Mongo.project. rewrite map_map.
  now rewrite (map_ext _ _ H).
Qed.

End Stages.

Lemma limit_length : forall (A : Type) (l : list A),
  List.length (Mongo.limit 10 l) = Nat.min 10 (List.length l).
Proof. intros A l. unfold Mongo.limit. apply length_firstn. Qed.

Lemma project_length : forall (A B : Type) (f : A -> B) (l : list A),
  List.length (Mongo.project f l) = List.length l.
Proof. intros A B f l. apply length_map. Qed.

(** The eight leaderboards as compositions of their stages. *)
Ltac unfold_leaderboards :=
  unfold getTopTracksByPlayTime, getTopTracksByPlayCount, getTopAlbumsByPlayTime,
    getTopAlbumsByPlayCount, getTopArtistsByPlayTime, getTopArtistsByPlayCount,
    getTopDaysByPlayTime, getTopDaysByPlayCount,
    TopTracksByPlayTime.aggregate, TopTracksByPlayTime.sorted,
    TopTracksByPlayTime.grouped,
    TopTracksByPlayCount.aggregate, TopTracksByPlayCount.sorted,
    TopTracksByPlayCount.grouped,
    TopAlbumsByPlayTime.aggregate, TopAlbumsByPlayTime.projected,
    TopAlbumsByPlayTime.grouped,
    TopAlbumsByPlayCount.aggregate, TopAlbumsByPlayCount.sorted,
    TopAlbumsByPlayCount.grouped,
    TopArtistsByPlayTime.aggregate, TopArtistsByPlayTime.sorted,
    TopArtistsByPlayTime.grouped,
    TopArtistsByPlayCount.aggregate, TopArtistsByPlayCount.sorted,
    TopArtistsByPlayCount.grouped,
    TopDaysByPlayTime.aggregate, TopDaysByPlayTime.sorted,
    TopDaysByPlayTime.grouped,
    TopDaysByPlayCount.aggregate, TopDaysByPlayCount.sorted,
    TopDaysByPlayCount.grouped.

Ltac unfold_leaderboards_in H :=
  unfold getTopTracksByPlayTime, getTopTracksByPlayCount, getTopAlbumsByPlayTime,
    getTopAlbumsByPlayCount, getTopArtistsByPlayTime, getTopArtistsByPlayCount,
    getTopDaysByPlayTime, getTopDaysByPlayCount,
    TopTracksByPlayTime.aggregate, TopTracksByPlayTime.sorted,
    TopTracksByPlayTime.grouped,
    TopTracksByPlayCount.aggregate, TopTracksByPlayCount.sorted,
    TopTracksByPlayCount.grouped,
    TopAlbumsByPlayTime.aggregate, TopAlbumsByPlayTime.projected,
    TopAlbumsByPlayTime.grouped,
    TopAlbumsByPlayCount.aggregate, TopAlbumsByPlayCount.sorted,
    TopAlbumsByPlayCount.grouped,
    TopArtistsByPlayTime.aggregate, TopArtistsByPlayTime.sorted,
    TopArtistsByPlayTime.grouped,
    TopArtistsByPlayCount.aggregate, TopArtistsByPlayCount.sorted,
    TopArtistsByPlayCount.grouped,
    TopDaysByPlayTime.aggregate, TopDaysByPlayTime.sorted,
    TopDaysByPlayTime.grouped,
    TopDaysByPlayCount.aggregate, TopDaysByPlayCount.sorted,
    TopDaysByPlayCount.grouped in H.

(** ** Rows of the leaderboards *)

(** No leaderboard lists a track, album, artist or day twice. *)
Theorem leaderboard_ids_distinct {TB : Mongo.TieBreak} : forall db : Collection,
  NoDup (map TopTracksByPlayTime.R._id (getTopTracksByPlayTime db))
  /\ NoDup (map TopTracksByPlayCount.G._id (getTopTracksByPlayCount db))
  /\ NoDup (map TopAlbumsByPlayTime.R._id (getTopAlbumsByPlayTime db))
  /\ NoDup (map TopAlbumsByPlayCount.G._id (getTopAlbumsByPlayCount db))
  /\ NoDup (map TopArtistsByPlayTime.R._id (getTopArtistsByPlayTime db))
  /\ NoDup (map TopArtistsByPlayCount.G._id (getTopArtistsByPlayCount db))
  /\ NoDup (map TopDaysByPlayTime.R._id (getTopDaysByPlayTime db))
  /\ NoDup (map TopDaysByPlayCount.G._id (getTopDaysByPlayCount db)).
Proof.
  intro db. unfold_leaderboards.
  repeat match goal with |- _ /\ _ => split end;
    apply limit_NoDup;
    repeat first
      [ apply sort_NoDup
      | apply (project_NoDup TopTracksByPlayTime.G._id);
        [ intro g; reflexivity | ]
      | apply (project_NoDup TopAlbumsByPlayTime.G._id);
        [ intro g; reflexivity | ]
      | apply (project_NoDup TopArtistsByPlayTime.G._id);
        [ intro g; reflexivity | ]
      | apply (project_NoDup TopDaysByPlayTime.G._id);
        [ intro g; reflexivity | ]
      | apply (project_NoDup TopDaysByPlayCount.G._id);
        [ intro g; reflexivity | ]
      | apply group_NoDup; intro b; reflexivity ].
Qed.

(** A leaderboard has one row per distinct key of the filtered set, up
    to ten: tracks, albums, artists or days. *)
Theorem leaderboard_lengths {TB : Mongo.TieBreak} : forall db : Collection,
  let filtered := Mongo.match_ filter db in
  List.length (getTopTracksByPlayTime db)
  = Nat.min 10 (distinct_keys spotify_track_uri filtered)
  /\ List.length (getTopTracksByPlayCount db)
     = Nat.min 10 (distinct_keys spotify_track_uri filtered)
  /\ List.length (getTopAlbumsByPlayTime db)
     = Nat.min 10 (distinct_keys master_metadata_album_album_name filtered)
  /\ List.length (getTopAlbumsByPlayCount db)
     = Nat.min 10 (distinct_keys master_metadata_album_album_name filtered)
  /\ List.length (getTopArtistsByPlayTime db)
     = Nat.min 10 (distinct_keys master_metadata_album_artist_name filtered)
  /\ List.length (getTopArtistsByPlayCount db)
     = Nat.min 10 (distinct_keys master_metadata_album_artist_name filtered)
  /\ List.length (getTopDaysByPlayTime db)
     = Nat.min 10 (distinct_keys day_of filtered)
  /\ List.length (getTopDaysByPlayCount db)
     = Nat.min 10 (distinct_keys day_of filtered).
Proof.
  intros db filtered.
  unfold_leaderboards.
  repeat match goal with |- _ /\ _ => split end;
    rewrite limit_length;
    repeat first [ rewrite project_length | rewrite sort_desc_length ];
    now rewrite group_length.
Qed.

(** In the four leaderboards by play count, the count of a row is the
    number of filtered records with the row's key, and is at least one. *)
Theorem play_counts_count_records {TB : Mongo.TieBreak} :
  forall db : Collection,
  Forall (fun g =>
            TopTracksByPlayCount.G.total_play_count g
            = Z.of_nat (List.length
                          (plays_of spotify_track_uri
                             (TopTracksByPlayCount.G._id g) db))
            /\ 1 <= TopTracksByPlayCount.G.total_play_count g)
         (getTopTracksByPlayCount db)
  /\ Forall (fun g =>
               TopAlbumsByPlayCount.G.total_track_plays_from_album_count g
               = Z.of_nat (List.length
                             (plays_of master_metadata_album_album_name
                                (TopAlbumsByPlayCount.G._id g) db))
               /\ 1 <= TopAlbumsByPlayCount.G.total_track_plays_from_album_count g)
            (getTopAlbumsByPlayCount db)
  /\ Forall (fun g =>
               TopArtistsByPlayCount.G.total_play_count g
               = Z.of_nat (List.length
                             (plays_of master_metadata_album_artist_name
                                (TopArtistsByPlayCount.G._id g) db))
               /\ 1 <= TopArtistsByPlayCount.G.total_play_count g)
            (getTopArtistsByPlayCount db)
  /\ Forall (fun g =>
               TopDaysByPlayCount.G.total_play_count g
               = Z.of_nat (List.length
                             (plays_of day_of (TopDaysByPlayCount.G._id g) db))
               /\ 1 <= TopDaysByPlayCount.G.total_play_count g)
            (getTopDaysByPlayCount db).
Proof.
  intro db.
  repeat match goal with |- _ /\ _ => split end;
    apply Forall_forall; intros row H;
    unfold_leaderboards_in H; unfold Mongo.project, Mongo.group in H;
    row_bucket H; simpl; unfold day_of;
    rewrite count_bucket, <- (bucket_plays_of _ _ _ H);
    (split; [reflexivity | unfold Mongo.bucket_docs; simpl; lia]).
Qed.

Lemma counts_partition : forall (key : PlayRecord -> string)
  (docs : list PlayRecord),
  sum_Z (map (Mongo.sum (fun _ => 1)) (Mongo.buckets String.eqb key docs))
  = Z.of_nat (List.length docs).
Proof.
  intros key docs. rewrite (buckets_sum String.eqb key (fun _ => 1)).
  apply sum_ones.
Qed.

(** Over a whole ranking by play count, before the limit, the counts add
    up to the number of filtered records: every filtered record is
    counted once, for tracks, albums, artists and days alike. *)
Theorem play_counts_partition {TB : Mongo.TieBreak} : forall db : Collection,
  let n := Z.of_nat (List.length (Mongo.match_ filter db)) in
  sum_Z (map TopTracksByPlayCount.G.total_play_count
           (TopTracksByPlayCount.aggregate db)) = n
  /\ sum_Z (map TopAlbumsByPlayCount.G.total_track_plays_from_album_count
              (TopAlbumsByPlayCount.aggregate db)) = n
  /\ sum_Z (map TopArtistsByPlayCount.G.total_play_count
              (TopArtistsByPlayCount.aggregate db)) = n
  /\ sum_Z (map TopDaysByPlayCount.G.total_play_count
              (TopDaysByPlayCount.aggregate db)) = n.
Proof.
  intros db n. unfold_leaderboards. unfold Mongo.project.
  repeat match goal with |- _ /\ _ => split end;
    try rewrite map_map;
    (etransitivity;
     [ apply sum_Z_perm, Permutation_map, sort_desc_perm | ]);
    unfold Mongo.group; rewrite map_map; simpl; apply counts_partition.
Qed.

(** The millisecond totals of all artist groups, of all album groups (in
    both album pipelines) and of all day groups add up to the millisecond
    sum of the filtered set. *)
Theorem time_groups_partition {TB : Mongo.TieBreak} : forall db : Collection,
  let t := total_ms (Mongo.match_ filter db) in
  sum_Z (map TopArtistsByPlayTime.G.total_play_time
           (TopArtistsByPlayTime.sorted db)) = t
  /\ sum_Z (map TopAlbumsByPlayTime.G.total_play_time
              (TopAlbumsByPlayTime.grouped db)) = t
  /\ sum_Z (map TopAlbumsByPlayCount.G.total_play_time
              (TopAlbumsByPlayCount.aggregate db)) = t
  /\ sum_Z (map TopDaysByPlayTime.G.total_play_time
              (TopDaysByPlayTime.sorted db)) = t.
Proof.
  intros db t. unfold_leaderboards.
  repeat match goal with |- _ /\ _ => split end;
    try (etransitivity;
         [ apply sum_Z_perm, Permutation_map, sort_desc_perm | ]);
    unfold Mongo.group; rewrite map_map; simpl; apply buckets_sum.
Qed.

(** The names shown with a track or an album are those of the first
    filtered record, in collection order, of that track or album. *)
Theorem first_fields_from_first_record {TB : Mongo.TieBreak} :
  forall db : Collection,
  Forall (fun row =>
            exists d rest,
              plays_of spotify_track_uri (TopTracksByPlayTime.R._id row) db
              = d :: rest
              /\ TopTracksByPlayTime.R.track_name row
                 = master_metadata_track_name d
              /\ TopTracksByPlayTime.R.artist_name row
                 = master_metadata_album_artist_name d)
         (getTopTracksByPlayTime db)
  /\ Forall (fun row =>
               exists d rest,
                 plays_of spotify_track_uri (TopTracksByPlayCount.G._id row) db
                 = d :: rest
                 /\ TopTracksByPlayCount.G.track_name row
                    = master_metadata_track_name d
                 /\ TopTracksByPlayCount.G.artist_name row
                    = master_metadata_album_artist_name d)
            (getTopTracksByPlayCount db)
  /\ Forall (fun row =>
               exists d rest,
                 plays_of master_metadata_album_album_name
                   (TopAlbumsByPlayTime.R._id row) db
                 = d :: rest
                 /\ TopAlbumsByPlayTime.R.artist_name row
                    = master_metadata_album_artist_name d)
            (getTopAlbumsByPlayTime db)
  /\ Forall (fun row =>
               exists d rest,
                 plays_of master_metadata_album_album_name
                   (TopAlbumsByPlayCount.G._id row) db
                 = d :: rest
                 /\ TopAlbumsByPlayCount.G.artist_name row
                    = master_metadata_album_artist_name d)
            (getTopAlbumsByPlayCount db).
Proof.
  intro db.
  repeat match goal with |- _ /\ _ => split end;
    apply Forall_forall; intros row H;
    unfold_leaderboards_in H; unfold Mongo.project, Mongo.group in H;
    row_bucket H; simpl;
    match goal with
    | Hb : In ?b (Mongo.buckets _ _ _) |- _ =>
        exists (Mongo.bucket_first b), (Mongo.bucket_rest b);
        rewrite <- (bucket_plays_of _ _ _ Hb)
    end;
    repeat split.
Qed.

Lemma existsb_map_id : forall (A : Type) (f : A -> string) (k : string)
  (l : list A),
  existsb (fun k' => String.eqb k' k) (map f l)
  = existsb (fun a => String.eqb (f a) k) l.
Proof.
  intros A f k l. induction l as [|a l IH]; simpl; [reflexivity|].
  now rewrite IH.
Qed.

Lemma bucket_ids_first_occurrences : forall (key : PlayRecord -> string)
  (docs : list PlayRecord),
  map Mongo.bucket_id (Mongo.buckets String.eqb key docs)
  = first_occurrences (map key docs).
Proof.
  intros key docs. induction docs as [|d docs IH] using rev_ind;
    [reflexivity|].
  rewrite buckets_snoc, add_to_bucket_ids, map_app. unfold first_occurrences.
  rewrite fold_left_app. fold (first_occurrences (map key docs)).
  simpl. rewrite <- IH, existsb_map_id. reflexivity.
Qed.

(** ** Bounds that the filter implies *)

Lemma plays_of_filtered : forall (key : PlayRecord -> string) (k : string)
  (db : Collection) (d : PlayRecord),
  In d (plays_of key k db) ->
  Mongo.matches filter d = true /\ key d = k /\ In d db.
Proof.
  intros key k db d H. unfold plays_of, with_key, Mongo.match_ in H.
  apply filter_In in H. destruct H as [H E]. apply filter_In in H.
  destruct H as [Hin M]. apply String.eqb_eq in E. now repeat split.
Qed.

Lemma sum_at_least : forall (D : Type) (f : D -> Z) (c : Z) (l : list D),
  (forall d, In d l -> c <= f d) ->
  c * Z.of_nat (List.length l) <= sum_Z (map f l).
Proof.
  intros D f c l. induction l as [|d l IH]; intro H.
  - simpl. lia.
  - cbn [map sum_Z fold_right List.length]. fold (sum_Z (map f l)).
    pose proof (H d (or_introl eq_refl)) as Hd.
    assert (IH' : c * Z.of_nat (List.length l) <= sum_Z (map f l)).
    { apply IH. intros x Hx. apply H. now right. }
    lia.
Qed.

Lemma bucket_ms_at_least : forall (key : PlayRecord -> string) (db : Collection)
  (b : Mongo.Bucket PlayRecord string),
  In b (Mongo.buckets String.eqb key (Mongo.match_ filter db)) ->
  30000 * Mongo.sum (fun _ => 1) b <= Mongo.sum ms_played b
  /\ 30000 <= Mongo.sum ms_played b.
Proof.
  intros key db b Hb.
  assert (H : 30000 * Mongo.sum (fun _ => 1) b <= Mongo.sum ms_played b).
  { rewrite count_bucket, sum_bucket. apply sum_at_least.
    intros d Hd. rewrite (bucket_plays_of key db b Hb) in Hd.
    apply plays_of_filtered in Hd. now apply matches_ms_played. }
  split; [exact H|].
  rewrite count_bucket in H. unfold Mongo.bucket_docs in H. simpl in H. lia.
Qed.

Lemma half_minute_shown : forall t : Z,
  30000 <= t -> (1 # 2 <= Mongo.round (Mongo.divide t 60000) 2)%Q.
Proof.
  intros t H. eapply Qle_trans; [|apply (derived_monotone 30000 t 60000 H)].
  vm_compute. discriminate.
Qed.

(** Every album in Top Albums by Play Count has at least 30000 ms of play
    time per counted play, and every row of a leaderboard by time shows
    at least half a minute. *)
Theorem rows_respect_the_30s_floor {TB : Mongo.TieBreak} :
  forall db : Collection,
  Forall (fun g =>
            30000 * TopAlbumsByPlayCount.G.total_track_plays_from_album_count g
            <= TopAlbumsByPlayCount.G.total_play_time g)
         (getTopAlbumsByPlayCount db)
  /\ Forall (fun row => (1 # 2 <= TopTracksByPlayTime.R.total_mins_played row)%Q)
            (getTopTracksByPlayTime db)
  /\ Forall (fun row =>
               (1 # 2 <= TopAlbumsByPlayTime.R.total_play_time_mins row)%Q)
            (getTopAlbumsByPlayTime db)
  /\ Forall (fun row =>
               (1 # 2 <= TopArtistsByPlayTime.R.total_play_time_mins row)%Q)
            (getTopArtistsByPlayTime db)
  /\ Forall (fun row =>
               (1 # 2 <= TopDaysByPlayTime.R.total_play_time_mins row)%Q)
            (getTopDaysByPlayTime db).
Proof.
  intro db.
  repeat match goal with |- _ /\ _ => split end;
    apply Forall_forall; intros row H;
    unfold_leaderboards_in H; unfold Mongo.project, Mongo.group in H;
    row_bucket H; simpl;
    match goal with
    | Hb : In ?b (Mongo.buckets _ _ _) |- _ =>
        destruct (bucket_ms_at_least _ _ _ Hb) as [H1 H2]
    end;
    first [ exact H1 | now apply half_minute_shown ].
Qed.

(** ** The scalar summaries and the order of the collection *)

Lemma Permutation_filter_keep : forall (A : Type) (f : A -> bool)
  (l l' : list A),
  Permutation l l' -> Permutation (List.filter f l) (List.filter f l').
Proof.
  intros A f l l' P. induction P; simpl.
  - constructor.
  - destruct (f x); [now apply perm_skip | assumption].
  - destruct (f x), (f y); try apply Permutation_refl. apply perm_swap.
  - eapply perm_trans; eassumption.
Qed.

Lemma getTotalUniqueTracksPlayed_nonempty : forall db : Collection,
  Mongo.match_ filter db <> [] ->
  getTotalUniqueTracksPlayed db = Ok (distinct_tracks (Mongo.match_ filter db)).
Proof.
  intros db Hne.
  unfold getTotalUniqueTracksPlayed, TotalUniqueTracksPlayed.aggregate,
    TotalUniqueTracksPlayed.grouped, Mongo.group, Mongo.count, distinct_tracks.
  pose proof (buckets_nonempty String.eqb spotify_track_uri String.eqb_eq _ Hne)
    as Hb.
  rewrite <- (buckets_count String.eqb spotify_track_uri String.eqb_eq string_dec
                (Mongo.match_ filter db)).
  destruct (Mongo.buckets String.eqb spotify_track_uri (Mongo.match_ filter db))
    as [|b bs]; [congruence|].
  cbn [map List.length TotalUniqueTracksPlayed.R.unique_tracks_played].
  now rewrite length_map.
Qed.

Lemma distinct_tracks_perm : forall l l' : list PlayRecord,
  Permutation l l' -> distinct_tracks l = distinct_tracks l'.
Proof.
  intros l l' P. unfold distinct_tracks. f_equal.
  apply Permutation_length, NoDup_Permutation; try apply NoDup_nodup.
  intro k. rewrite !nodup_In. split; apply Permutation_in;
    [ | apply Permutation_sym ]; now apply Permutation_map.
Qed.

(** The two scalar summaries do not depend on the order of the records in
    the collection: on a rearranged collection each returns the same
    value, or throws as before. *)
Theorem scalar_summaries_ignore_order : forall db db' : Collection,
  Permutation db db' ->
  getTotalMinsPlayed db = getTotalMinsPlayed db'
  /\ getTotalUniqueTracksPlayed db = getTotalUniqueTracksPlayed db'.
Proof.
  intros db db' P.
  pose proof (Permutation_filter_keep _ (Mongo.matches filter) _ _ P) as PF.
  fold (Mongo.match_ filter db) in PF. fold (Mongo.match_ filter db') in PF.
  destruct (Mongo.match_ filter db) as [|d l] eqn:E.
  - apply Permutation_nil in PF.
    unfold getTotalMinsPlayed, getTotalUniqueTracksPlayed,
      TotalMinsPlayed.aggregate, TotalMinsPlayed.grouped,
      TotalUniqueTracksPlayed.aggregate, TotalUniqueTracksPlayed.grouped.
    rewrite E, PF. split; reflexivity.
  - assert (N : Mongo.match_ filter db <> []) by (rewrite E; discriminate).
    assert (N' : Mongo.match_ filter db' <> []).
    { intro E'. rewrite E' in PF. apply Permutation_sym, Permutation_nil in PF.
      discriminate. }
    rewrite <- E in PF.
    rewrite (getTotalMinsPlayed_nonempty db N),
      (getTotalMinsPlayed_nonempty db' N'),
      (getTotalUniqueTracksPlayed_nonempty db N),
      (getTotalUniqueTracksPlayed_nonempty db' N').
    split.
    + unfold total_ms. now rewrite (sum_Z_perm _ _ (Permutation_map ms_played PF)).
    + now rewrite (distinct_tracks_perm _ _ PF).
Qed.

Lemma scalar_summaries_ignore_order_witness :
  Permutation three_plays (rev three_plays)
  /\ getTotalMinsPlayed three_plays = getTotalMinsPlayed (rev three_plays)
  /\ getTotalUniqueTracksPlayed three_plays
     = getTotalUniqueTracksPlayed (rev three_plays).
Proof.
  split; [apply Permutation_rev|].
  apply (scalar_summaries_ignore_order three_plays (rev three_plays)).
  apply Permutation_rev.
Defined.

(** * Further properties of the script *)

(** ** [logSeries] *)

Lemma add_lines_nil : forall w : World, add_lines [] w = w.
Proof. intros [d s c]. unfold add_lines; simpl. now rewrite app_nil_r. Qed.

Lemma add_lines_add_lines : forall (l1 l2 : list Line) (w : World),
  add_lines l2 (add_lines l1 w) = add_lines (l1 ++ l2) w.
Proof.
  intros l1 l2 w. unfold add_lines; simpl. now rewrite app_assoc.
Qed.

Lemma console_log_run : forall (s : Style) (ps : list Piece) (w : World),
  console_log s ps w = (Ok tt, add_lines [ {| style := s; pieces := ps |} ] w).
Proof. reflexivity. Qed.

Lemma combine_seq_shift : forall (R : Type) (records : list R) (k n : nat),
  combine (seq (S k) n) records
  = map (fun ir : nat * R => (S (fst ir), snd ir)) (combine (seq k n) records).
Proof.
  intros R records. induction records as [|r rest IH]; intros k n.
  - now rewrite !combine_nil.
  - destruct n as [|n]; [reflexivity|]. simpl. now rewrite IH.
Qed.

Lemma ranked_lines_cons : forall (R : Type) (fmt : R -> list Piece) (from : Z)
  (r : R) (rest : list R),
  ranked_lines fmt from (r :: rest)
  = {| style := rank_style (from + 1);
       pieces := Int (from + 1) :: Text ". " :: fmt r |}
    :: ranked_lines fmt (from + 1) rest.
Proof.
  intros R fmt from r rest. unfold ranked_lines.
  cbn [List.length seq combine map fst snd Z.of_nat Pos.of_succ_nat].
  f_equal. rewrite combine_seq_shift, map_map. apply map_ext.
  intros [i x]. cbn [fst snd].
  replace (from + Z.of_nat (S i)) with (from + 1 + Z.of_nat i) by lia.
  reflexivity.
Qed.

Lemma log_ranked_run : forall (R : Type) (fmt : R -> list Piece)
  (records : list R) (idx : Z) (w : World),
  log_ranked fmt idx records w
  = (Ok tt, add_lines (ranked_lines fmt idx records) w).
Proof.
  intros R fmt records. induction records as [|r rest IH]; intros idx w.
  - simpl. unfold ret, ranked_lines; simpl. now rewrite add_lines_nil.
  - rewrite ranked_lines_cons. cbn [log_ranked]. unfold bind at 1.
    rewrite console_log_run, IH, add_lines_add_lines. reflexivity.
Qed.

Lemma logSeries_run : forall (R : Type) (title : string) (records : list R)
  (fmt : R -> list Piece) (w : World),
  logSeries title records fmt w
  = (Ok tt, add_lines (series_lines title records fmt) w).
Proof.
  intros R title records fmt w. unfold logSeries, series_lines, bind.
  rewrite console_log_run, log_ranked_run, console_log_run.
  now rewrite !add_lines_add_lines.
Qed.

Lemma ranked_lines_length : forall (R : Type) (fmt : R -> list Piece) (from : Z)
  (records : list R),
  List.length (ranked_lines fmt from records) = List.length records.
Proof.
  intros R fmt from records. unfold ranked_lines.
  rewrite length_map, length_combine, length_seq. apply Nat.min_id.
Qed.

Lemma rank_style_plain : forall rank : Z, 4 <= rank -> rank_style rank = Plain.
Proof.
  intros rank H. destruct rank as [|p|p]; try lia.
  destruct p as [p|p|]; try lia;
    destruct p as [p|p|]; try lia; reflexivity.
Qed.

Lemma ranked_lines_plain : forall (R : Type) (fmt : R -> list Piece)
  (records : list R) (from : Z),
  3 <= from ->
  map style (ranked_lines fmt from records)
  = repeat Plain (List.length records).
Proof.
  intros R fmt records. induction records as [|r rest IH]; intros from H.
  - reflexivity.
  - rewrite ranked_lines_cons. cbn [map style List.length repeat].
    rewrite rank_style_plain by lia. f_equal. apply IH. lia.
Qed.

(** [logSeries] never fails and leaves the directory and the collection
    alone.  It writes the title line, then one line per record in the
    order given, numbered from 1, then an empty line: two lines more than
    there are records.  The first three record lines are styled gold,
    black on silver and bronze, and every later one is plain. *)
Theorem logSeries_output : forall (R : Type) (title : string)
  (records : list R) (fmt : R -> list Piece) (w : World),
  logSeries title records fmt w
  = (Ok tt, add_lines (series_lines title records fmt) w)
  /\ List.length (series_lines title records fmt)
     = (List.length records + 2)%nat
  /\ map (fun l => hd (Text "") (pieces l)) (ranked_lines fmt 0 records)
     = map (fun i => Int (Z.of_nat i)) (seq 1 (List.length records))
  /\ map style (ranked_lines fmt 0 records)
     = firstn (List.length records) [Gold; BlackOnSilver; Bronze]
       ++ repeat Plain (List.length records - 3).
Proof.
  intros R title records fmt w. split; [apply logSeries_run|]. split; [|split].
  - unfold series_lines. cbn [List.length]. rewrite length_app, ranked_lines_length.
    simpl. lia.
  - unfold ranked_lines. rewrite map_map. cbn [pieces hd].
    generalize 1%nat as k. induction records as [|r rest IH]; intro k.
    + reflexivity.
    + cbn [List.length seq combine map fst]. f_equal. apply IH.
  - destruct records as [|r1 [|r2 [|r3 rest]]]; try reflexivity.
    rewrite !ranked_lines_cons. cbn [map style List.length firstn app].
    rewrite ranked_lines_plain by lia.
    replace (S (S (S (List.length rest))) - 3)%nat with (List.length rest) by lia.
    rewrite firstn_nil. reflexivity.
Qed.

(** ** The whole run *)

Lemma imported_plays_add_lines : forall (l : list Line) (w : World),
  imported_plays (add_lines l w) = imported_plays w.
Proof. reflexivity. Qed.

Lemma series_lines_length : forall (R : Type) (title : string)
  (records : list R) (fmt : R -> list Piece),
  List.length (series_lines title records fmt) = (List.length records + 2)%nat.
Proof.
  intros R title records fmt. unfold series_lines. cbn [List.length].
  rewrite length_app, ranked_lines_length. simpl. lia.
Qed.

Lemma distinct_keys_positive : forall (key : PlayRecord -> string)
  (docs : list PlayRecord),
  docs <> [] -> (1 <= distinct_keys key docs)%nat.
Proof.
  intros key [|d docs] H; [congruence|]. unfold distinct_keys.
  assert (Hin : In (key d) (nodup string_dec (map key (d :: docs)))).
  { apply nodup_In. now left. }
  destruct (nodup string_dec (map key (d :: docs))); [destruct Hin | simpl; lia].
Qed.

Lemma board_length_bounds : forall (G : Type) (key : PlayRecord -> string)
  (acc : Mongo.Bucket PlayRecord string -> G) (docs : list PlayRecord),
  docs <> [] ->
  (1 <= Nat.min 10 (List.length (Mongo.group String.eqb key acc docs)) <= 10)%nat.
Proof.
  intros G key acc docs H. rewrite group_length.
  pose proof (distinct_keys_positive key docs H). lia.
Qed.

Lemma main_run {TB : Mongo.TieBreak} : forall w : World,
  Mongo.match_ filter (imported_plays w) <> [] ->
  main w
  = (Ok tt,
     add_lines
       (main_lines (imported_plays w)
          (Mongo.round
             (Mongo.divide (total_ms (Mongo.match_ filter (imported_plays w)))
                60000) 2)
          (distinct_tracks (Mongo.match_ filter (imported_plays w))))
       w).
Proof.
  intros w H. unfold main, bind, query, lift. cbv beta iota.
  rewrite (getTotalMinsPlayed_nonempty _ H),
    (getTotalUniqueTracksPlayed_nonempty _ H).
  cbv beta iota.
  repeat (first [ rewrite console_log_run | rewrite logSeries_run ];
          cbv beta iota; rewrite ?imported_plays_add_lines).
  rewrite !add_lines_add_lines. unfold main_lines.
  repeat rewrite <- app_assoc. reflexivity.
Qed.

Lemma boards_between_1_and_10 {TB : Mongo.TieBreak} : forall db : Collection,
  Mongo.match_ filter db <> [] ->
  (1 <= List.length (getTopTracksByPlayTime db) <= 10
   /\ 1 <= List.length (getTopTracksByPlayCount db) <= 10
   /\ 1 <= List.length (getTopAlbumsByPlayTime db) <= 10
   /\ 1 <= List.length (getTopAlbumsByPlayCount db) <= 10
   /\ 1 <= List.length (getTopArtistsByPlayTime db) <= 10
   /\ 1 <= List.length (getTopArtistsByPlayCount db) <= 10
   /\ 1 <= List.length (getTopDaysByPlayTime db) <= 10
   /\ 1 <= List.length (getTopDaysByPlayCount db) <= 10)%nat.
Proof.
  intros db H. unfold_leaderboards.
  repeat split;
    rewrite limit_length;
    repeat first [ rewrite project_length | rewrite sort_desc_length ];
    match goal with
    | |- context [Mongo.group String.eqb ?k ?a ?d] =>
        pose proof (board_length_bounds _ k a d H)
    end;
    lia.
Qed.

(** When some record matches the filter the script runs to its end
    without an exception: it prints the summary line with the rounded
    total minutes and the number of distinct tracks, an empty line, and
    then the eight sections in their fixed order, between 26 and 98 lines
    in all, and changes neither the collection nor the directory.  For a
    filtered set of less than 2^53 ms the minutes of the summary line are
    the total divided by 60000 as a double and rounded half to even: a
    hundredth no further than 0.005 from the exact quotient. *)
Theorem main_output {TB : Mongo.TieBreak} : forall w : World,
  Mongo.match_ filter (imported_plays w) <> [] ->
  let db := imported_plays w in
  let mins :=
    Mongo.round (Mongo.divide (total_ms (Mongo.match_ filter db)) 60000) 2 in
  let tracks := distinct_tracks (Mongo.match_ filter db) in
  main w = (Ok tt, add_lines (main_lines db mins tracks) w)
  /\ (26 <= List.length (main_lines db mins tracks) <= 98)%nat
  /\ (total_ms (Mongo.match_ filter db) < 2 ^ 53 ->
      shown (total_ms (Mongo.match_ filter db)) 60000 mins).
Proof.
  intros w H db mins tracks. split; [now apply main_run|]. split.
  - unfold main_lines. rewrite !length_app, !series_lines_length.
    cbn [List.length].
    pose proof (boards_between_1_and_10 db H). lia.
  - intro Hlt. apply minutes_shown.
    split; [apply filtered_total_nonneg | exact Hlt].
Qed.

Lemma main_output_witness :
  Mongo.match_ filter [half_way_play] <> []
  /\ main (TB := keep_input_order)
       {| dir := None; imported_plays := [half_way_play]; console := [] |}
     = (Ok tt,
        add_lines
          (main_lines (TB := keep_input_order) [half_way_play] (51 # 100) 1)
          {| dir := None; imported_plays := [half_way_play]; console := [] |}).
Proof.
  split; [vm_compute; discriminate|].
  apply (main_output (TB := keep_input_order)
           {| dir := None; imported_plays := [half_way_play]; console := [] |}).
  vm_compute. discriminate.
Defined.

(** ** [importPlays], file by file *)

Section ImporterFacts.
Variable JSON_parse : string -> option JS.value.

Lemma import_file_passes : forall entry : string * Node,
  passes JSON_parse entry = true ->
  exists lines : list Line,
    (1 <= List.length lines <= 2)%nat
    /\ forall w, import_file JSON_parse entry w = (Ok tt, add_lines lines w).
Proof.
  intros [file node] H. unfold passes, skipped_by_name in H.
  cbn [fst snd] in H. unfold import_file.
  destruct (negb (endsWith ".json" file) || negb (includes "Audio" file)
            || isDirectory node).
  { eexists. split; [|intro w; apply console_log_run]. simpl. lia. }
  destruct node as [|contents|]; try discriminate.
  unfold bind, lift, readFileSync, parse.
  destruct (String.eqb contents "").
  { eexists. split;
      [|intro w; rewrite !console_log_run, add_lines_add_lines; reflexivity].
    simpl. lia. }
  destruct (JSON_parse contents) as [v|]; [|discriminate].
  destruct v as [| |b|n|s|items|fields]; try discriminate;
    cbn [length_of];
    match goal with
    | |- context [strict_eq_zero ?len] => destruct (strict_eq_zero len)
    end;
    (eexists; split;
     [|intro w; rewrite !console_log_run, add_lines_add_lines; reflexivity];
     simpl; lia).
Qed.

Lemma import_file_fails : forall entry : string * Node,
  passes JSON_parse entry = false ->
  exists err : Error,
    forall w,
      import_file JSON_parse entry w
      = (Throw err,
         add_lines [ {| style := Plain;
                        pieces := [Text "processing file"; Text (fst entry)] |} ]
                   w).
Proof.
  intros [file node] H. unfold passes, skipped_by_name in H.
  cbn [fst snd] in *. unfold import_file.
  destruct (negb (endsWith ".json" file) || negb (includes "Audio" file)
            || isDirectory node) eqn:G; [discriminate|].
  unfold bind, lift, readFileSync, parse.
  destruct node as [|contents|].
  - apply orb_false_iff in G. destruct G as [_ G]. discriminate.
  - destruct (String.eqb contents ""); [discriminate|].
    destruct (JSON_parse contents) as [v|].
    + destruct v; try discriminate;
        (eexists; intro w; rewrite console_log_run; reflexivity).
    + eexists. intro w. rewrite console_log_run. reflexivity.
  - eexists. intro w. rewrite console_log_run. reflexivity.
Qed.

Lemma for_of_passes : forall entries : list (string * Node),
  forallb (passes JSON_parse) entries = true ->
  exists lines : list Line,
    (List.length entries <= List.length lines <= 2 * List.length entries)%nat
    /\ forall w,
         for_of (import_file JSON_parse) entries w = (Ok tt, add_lines lines w).
Proof.
  intro entries. induction entries as [|e rest IH]; intro H.
  - exists []. split; [simpl; lia|]. intro w. simpl. unfold ret.
    now rewrite add_lines_nil.
  - simpl in H. apply andb_true_iff in H. destruct H as [He Hrest].
    destruct (import_file_passes e He) as [l1 [B1 R1]].
    destruct (IH Hrest) as [l2 [B2 R2]].
    exists (l1 ++ l2). split; [rewrite length_app; simpl; lia|].
    intro w. cbn [for_of]. unfold bind. rewrite R1, R2.
    now rewrite add_lines_add_lines.
Qed.

Lemma for_of_fails : forall (good : list (string * Node)) (bad : string * Node),
  forallb (passes JSON_parse) good = true ->
  passes JSON_parse bad = false ->
  exists (err : Error) (lines : list Line),
    (List.length lines <= 2 * List.length good + 1)%nat
    /\ forall rest w,
         for_of (import_file JSON_parse) (good ++ bad :: rest) w
         = (Throw err, add_lines lines w).
Proof.
  intro good. induction good as [|e good IH]; intros bad Hg Hb.
  - destruct (import_file_fails bad Hb) as [err R].
    exists err. eexists. split; [|intros rest w; cbn [app for_of]; unfold bind;
                                   rewrite R; reflexivity].
    simpl. lia.
  - simpl in Hg. apply andb_true_iff in Hg. destruct Hg as [He Hg].
    destruct (import_file_passes e He) as [l1 [B1 R1]].
    destruct (IH bad Hg Hb) as [err [l2 [B2 R2]]].
    exists err, (l1 ++ l2). split; [rewrite length_app; simpl; lia|].
    intros rest w. cbn [app for_of]. unfold bind.
    rewrite R1, R2. now rewrite add_lines_add_lines.
Qed.

Lemma first_failure : forall (A : Type) (f : A -> bool) (l : list A),
  forallb f l = false ->
  exists good bad rest,
    l = good ++ bad :: rest /\ forallb f good = true /\ f bad = false.
Proof.
  intros A f l. induction l as [|a l IH]; intro H; [discriminate|].
  simpl in H. destruct (f a) eqn:E.
  - destruct (IH H) as [good [bad [rest [-> [Hg Hb]]]]].
    exists (a :: good), bad, rest. simpl. now rewrite E.
  - exists [], a, l. now repeat split.
Qed.

Lemma importPlays_for_of : forall (entries : list (string * Node))
  (store : Collection) (out : list Line),
  importPlays JSON_parse
    {| dir := Some entries; imported_plays := store; console := out |}
  = for_of (import_file JSON_parse) entries
      {| dir := Some entries; imported_plays := store; console := out |}.
Proof. reflexivity. Qed.

End ImporterFacts.

(** [importPlays] on an existing directory completes exactly when every
    entry passes: it is skipped by the name checks, or is an empty file,
    or holds a text that decodes to a value with a [length].  It then
    logs one or two lines per entry. *)
Theorem importPlays_completes_iff_all_pass :
  forall (JSON_parse : string -> option JS.value)
         (entries : list (string * Node)) (store : Collection)
         (out : list Line),
    let w := {| dir := Some entries; imported_plays := store; console := out |} in
    (fst (importPlays JSON_parse w) = Ok tt
     <-> forallb (passes JSON_parse) entries = true)
    /\ exists lines : list Line,
         snd (importPlays JSON_parse w) = add_lines lines w
         /\ (List.length lines <= 2 * List.length entries)%nat
         /\ ((fst (importPlays JSON_parse w) = Ok tt
              /\ (List.length entries <= List.length lines)%nat)
             \/ exists e, fst (importPlays JSON_parse w) = Throw e).
Proof.
  intros JSON_parse entries store out w. unfold w.
  rewrite importPlays_for_of.
  destruct (forallb (passes JSON_parse) entries) eqn:E.
  - destruct (for_of_passes JSON_parse entries E) as [lines [B R]].
    rewrite R. cbn [fst snd]. split; [now split|].
    exists lines. split; [reflexivity|]. split; [lia|]. left. split; [reflexivity|lia].
  - destruct (first_failure _ _ _ E) as [good [bad [rest [-> [Hg Hb]]]]].
    destruct (for_of_fails JSON_parse good bad Hg Hb) as [err [lines [B R]]].
    rewrite (R rest). cbn [fst snd].
    split; [split; discriminate|].
    exists lines. split; [reflexivity|]. split; [|right; now exists err].
    rewrite length_app. simpl. lia.
Qed.

(** The first entry that does not pass ends the import with its
    exception: the outcome and the lines logged are the same whatever
    entries follow it in the directory, none of which is looked at. *)
Theorem importPlays_stops_at_first_failure :
  forall (JSON_parse : string -> option JS.value)
         (good : list (string * Node)) (bad : string * Node),
    forallb (passes JSON_parse) good = true ->
    passes JSON_parse bad = false ->
    exists (err : Error) (lines : list Line),
      forall (rest : list (string * Node)) (store : Collection)
             (out : list Line),
        importPlays JSON_parse
          {| dir := Some (good ++ bad :: rest);
             imported_plays := store;
             console := out |}
        = (Throw err,
           {| dir := Some (good ++ bad :: rest);
              imported_plays := store;
              console := out ++ lines |}).
Proof.
  intros JSON_parse good bad Hg Hb.
  destruct (for_of_fails JSON_parse good bad Hg Hb) as [err [lines [_ R]]].
  exists err, lines. intros rest store out.
  rewrite importPlays_for_of. apply R.
Qed.

Lemma importPlays_stops_at_first_failure_witness :
  forallb (passes sample_JSON_parse) [ ("not-audio.json", Unreadable) ] = true
  /\ passes sample_JSON_parse (audio_2023, File "[{") = false
  /\ exists (err : Error) (lines : list Line),
       forall (rest : list (string * Node)) (store : Collection)
              (out : list Line),
         importPlays sample_JSON_parse
           {| dir := Some ([ ("not-audio.json", Unreadable) ]
                           ++ (audio_2023, File "[{") :: rest);
              imported_plays := store;
              console := out |}
         = (Throw err,
            {| dir := Some ([ ("not-audio.json", Unreadable) ]
                            ++ (audio_2023, File "[{") :: rest);
               imported_plays := store;
               console := out ++ lines |}).
Proof.
  split; [reflexivity|]. split; [reflexivity|].
  apply (importPlays_stops_at_first_failure sample_JSON_parse
           [ ("not-audio.json", Unreadable) ] (audio_2023, File "[{")).
  - reflexivity.
  - reflexivity.
Defined.

(** ** The name checks *)

Lemma prefix_iff : forall s1 s2 : string,
  String.prefix s1 s2 = true <-> exists q, s2 = (s1 ++ q)%string.
Proof.
  intro s1. induction s1 as [|a s1 IH]; intro s2.
  - split; [intros _; now exists s2 | intros _; now destruct s2].
  - destruct s2 as [|b s2]; simpl.
    + split; [discriminate | intros [q H]; discriminate].
    + destruct (ascii_dec a b) as [->|N].
      * rewrite IH. split; intros [q H]; exists q.
        -- now rewrite H.
        -- now injection H.
      * split; [discriminate|]. intros [q H]. injection H as H1 _. congruence.
Qed.

(** [includes] is the substring test. *)
Lemma includes_iff : forall sub s : string,
  includes sub s = true <-> exists p q, s = (p ++ sub ++ q)%string.
Proof.
  intros sub s. split.
  - induction s as [|c s IH]; cbn [includes].
    + destruct (String.prefix sub "") eqn:E; [|discriminate].
      intros _. apply prefix_iff in E. destruct E as [q E]. now exists "", q.
    + destruct (String.prefix sub (String c s)) eqn:E.
      * intros _. apply prefix_iff in E. destruct E as [q E]. now exists "", q.
      * intro H. destruct (IH H) as [p [q ->]]. now exists (String c p), q.
  - intros [p [q ->]]. induction p as [|c p IH].
    + assert (P : String.prefix sub (sub ++ q) = true)
        by (apply prefix_iff; now exists q).
      cbn [append]. destruct (sub ++ q)%string; cbn [includes]; now rewrite P.
    + cbn [append includes]. rewrite IH.
      now destruct (String.prefix sub (String c (p ++ sub ++ q))).
Qed.

Lemma substring_skip : forall (p s : string) (m : nat),
  String.substring (String.length p) m (p ++ s) = String.substring 0 m s.
Proof.
  intro p. induction p as [|c p IH]; intros s m; [reflexivity|].
  simpl. apply IH.
Qed.

Lemma substring_all : forall s : string,
  String.substring 0 (String.length s) s = s.
Proof.
  intro s. induction s as [|c s IH]; [reflexivity|]. simpl. now rewrite IH.
Qed.

Lemma length_append : forall p s : string,
  String.length (p ++ s) = (String.length p + String.length s)%nat.
Proof.
  intros p s. induction p as [|c p IH]; [reflexivity|]. simpl. now rewrite IH.
Qed.

Lemma substring_split : forall (s : string) (k : nat),
  (k <= String.length s)%nat ->
  s = (String.substring 0 k s
       ++ String.substring k (String.length s - k) s)%string.
Proof.
  intro s. induction s as [|c s IH]; intros k H.
  - simpl in H. assert (k = 0)%nat by lia. subst. reflexivity.
  - destruct k as [|k].
    + simpl. now rewrite substring_all.
    + simpl in H. simpl. f_equal. apply IH. lia.
Qed.

(** [endsWith] is the suffix test. *)
Lemma endsWith_iff : forall suffix s : string,
  endsWith suffix s = true <-> exists p, s = (p ++ suffix)%string.
Proof.
  intros suffix s. unfold endsWith. rewrite andb_true_iff, Nat.leb_le. split.
  - intros [L E]. apply String.eqb_eq in E.
    exists (String.substring 0 (String.length s - String.length suffix) s).
    pose proof (substring_split s (String.length s - String.length suffix))
      as S.
    replace (String.length s - (String.length s - String.length suffix))%nat
      with (String.length suffix) in S by lia.
    rewrite E in S. apply S. lia.
  - intros [p ->]. rewrite length_append. split; [lia|].
    replace (String.length p + String.length suffix - String.length suffix)%nat
      with (String.length p) by lia.
    rewrite substring_skip, substring_all. apply String.eqb_refl.
Qed.

Lemma import_file_processing :
  forall (JSON_parse : string -> option JS.value) (file : string) (node : Node)
         (w : World),
    negb (endsWith ".json" file) || negb (includes "Audio" file)
    || isDirectory node = false ->
    exists (r : result unit) (lines : list Line),
      import_file JSON_parse (file, node) w
      = (r, add_lines ({| style := Plain;
                          pieces := [Text "processing file"; Text file] |}
                       :: lines) w).
Proof.
  intros JSON_parse file node w G. unfold import_file. rewrite G.
  unfold bind, lift, readFileSync, parse. rewrite console_log_run.
  destruct node as [|contents|].
  - now exists (Throw SystemError), [].
  - destruct (String.eqb contents "").
    { eexists. eexists. rewrite console_log_run, add_lines_add_lines.
      reflexivity. }
    destruct (JSON_parse contents) as [v|]; [|now exists (Throw SyntaxError), []].
    destruct (length_of v) as [len|e]; [|now exists (Throw e), []].
    destruct (strict_eq_zero len);
      eexists; eexists; rewrite console_log_run, add_lines_add_lines;
      reflexivity.
  - now exists (Throw SystemError), [].
Qed.

(** [importPlays] looks into an entry exactly when its name ends with
    [.json], contains [Audio] and it is not a directory.  Any other entry
    is only logged as skipped, whatever it is and whatever it holds. *)
Theorem name_checks_decide_skipping :
  forall (JSON_parse : string -> option JS.value) (file : string) (node : Node)
         (w : World),
    import_file JSON_parse (file, node) w
    = (Ok tt,
       add_lines [ {| style := Plain;
                      pieces := [Text "skipping invalid file"; Text file] |} ] w)
    <-> ~ ((exists a, file = (a ++ ".json")%string)
           /\ (exists a b, file = (a ++ "Audio" ++ b)%string)
           /\ node <> Directory).
Proof.
  intros JSON_parse file node w.
  destruct (negb (endsWith ".json" file) || negb (includes "Audio" file)
            || isDirectory node) eqn:G.
  - split.
    + intros _ [A [B C]].
      apply endsWith_iff in A. apply includes_iff in B.
      rewrite A, B in G. destruct node; try discriminate. now apply C.
    + intros _. unfold import_file. rewrite G. apply console_log_run.
  - split.
    + intros E _.
      destruct (import_file_processing JSON_parse file node w G) as [r [ls R]].
      rewrite R in E.
      assert (C := f_equal (fun x : result unit * World => console (snd x)) E).
      cbn [snd add_lines console] in C. apply app_inv_head in C.
      discriminate.
    + intro N. exfalso. apply N.
      apply orb_false_iff in G. destruct G as [G G3].
      apply orb_false_iff in G. destruct G as [G1 G2].
      apply negb_false_iff in G1, G2.
      split; [now apply endsWith_iff|]. split; [now apply includes_iff|].
      intros ->. discriminate.
Qed.

(** ** The filter, positively *)

Lemma matches_filter_iff : forall e : PlayRecord,
  Mongo.matches filter e = true
  <-> incognito_mode e = false
      /\ 30000 <= ms_played e
      /\ spotify_track_uri e <> "spotify:track:1PZoHdDM71mzOFW1T6H03y"
      /\ 1704067200000 <= ts e < 1735689600000.
Proof.
  intro e. unfold Mongo.matches.
  change (Mongo.q_ts_gte filter) with 1704067200000.
  change (Mongo.q_ts_lt filter) with 1735689600000.
  cbn [filter Mongo.q_incognito_mode Mongo.q_ms_played_gte
       Mongo.q_spotify_track_uri_nin existsb].
  rewrite !andb_true_iff, negb_true_iff, orb_false_r, !Z.leb_le, Z.ltb_lt.
  rewrite String.eqb_neq.
  destruct (incognito_mode e); simpl; intuition congruence.
Qed.

(** A record that is not in incognito mode, was played for at least 30000
    ms, lies in 2024 (UTC) and is not the excluded track is counted: put
    anywhere into a collection it adds one record to the filtered set and
    its [ms_played] to the total that [getTotalMinsPlayed] divides and
    rounds; below 2^53 ms the value returned is that total divided by
    60000 as a double and rounded half to even, a hundredth no further
    than 0.005 from the exact quotient. *)
Theorem matching_record_is_counted : forall (e : PlayRecord) (s1 s2 : Collection),
  incognito_mode e = false ->
  30000 <= ms_played e ->
  spotify_track_uri e <> "spotify:track:1PZoHdDM71mzOFW1T6H03y" ->
  1704067200000 <= ts e < 1735689600000 ->
  Mongo.match_ filter (s1 ++ e :: s2)
  = Mongo.match_ filter s1 ++ e :: Mongo.match_ filter s2
  /\ getTotalMinsPlayed (s1 ++ e :: s2)
     = Ok (Mongo.round
             (Mongo.divide
                (total_ms (Mongo.match_ filter (s1 ++ s2)) + ms_played e)
                60000) 2)
  /\ (total_ms (Mongo.match_ filter (s1 ++ s2)) + ms_played e < 2 ^ 53 ->
      exists v : Q,
        getTotalMinsPlayed (s1 ++ e :: s2) = Ok v
        /\ shown (total_ms (Mongo.match_ filter (s1 ++ s2)) + ms_played e)
             60000 v).
Proof.
  intros e s1 s2 H1 H2 H3 H4.
  assert (M : Mongo.matches filter e = true) by now apply matches_filter_iff.
  assert (E : Mongo.match_ filter (s1 ++ e :: s2)
              = Mongo.match_ filter s1 ++ e :: Mongo.match_ filter s2).
  { unfold Mongo.match_. rewrite filter_app. simpl. now rewrite M. }
  assert (T : total_ms (Mongo.match_ filter (s1 ++ e :: s2))
              = total_ms (Mongo.match_ filter (s1 ++ s2)) + ms_played e).
  { rewrite E. unfold Mongo.match_, total_ms.
    rewrite filter_app, !map_app, !sum_Z_app. simpl. lia. }
  assert (V : getTotalMinsPlayed (s1 ++ e :: s2)
              = Ok (Mongo.round
                      (Mongo.divide
                         (total_ms (Mongo.match_ filter (s1 ++ s2)) + ms_played e)
                         60000) 2)).
  { rewrite getTotalMinsPlayed_nonempty.
    - now rewrite T.
    - rewrite E. now destruct (Mongo.match_ filter s1). }
  split; [exact E|]. split; [exact V|].
  intro Hlt. eexists. split; [exact V|].
  apply minutes_shown. split; [|exact Hlt].
  rewrite <- T. apply filtered_total_nonneg.
Qed.

Lemma matching_record_is_counted_witness :
  incognito_mode half_way_play = false
  /\ 30000 <= ms_played half_way_play
  /\ spotify_track_uri half_way_play <> "spotify:track:1PZoHdDM71mzOFW1T6H03y"
  /\ 1704067200000 <= ts half_way_play < 1735689600000
  /\ getTotalMinsPlayed ([incognito_play] ++ half_way_play :: [])
     = Ok (51 # 100).
Proof.
  split; [reflexivity|]. split; [vm_compute; discriminate|].
  split; [discriminate|].
  split; [vm_compute; split; [discriminate | reflexivity]|].
  apply (matching_record_is_counted half_way_play [incognito_play] []).
  - reflexivity.
  - vm_compute. discriminate.
  - discriminate.
  - vm_compute. split; [discriminate | reflexivity].
Defined.

(** ** The day keys *)

Lemma NoDup_map_injective : forall (A B : Type) (f : A -> B) (l : list A)
  (a b : A),
  NoDup (map f l) -> In a l -> In b l -> f a = f b -> a = b.
Proof.
  intros A B f l a b ND. induction l as [|x l IH]; intros Ha Hb E; [destruct Ha|].
  simpl in ND. inversion ND as [|y ys Hx ND']; subst.
  destruct Ha as [->|Ha], Hb as [->|Hb].
  - reflexivity.
  - exfalso. apply Hx. rewrite E. now apply in_map.
  - exfalso. apply Hx. rewrite <- E. now apply in_map.
  - now apply IH.
Qed.

Lemma dateToString_day : forall t : Z,
  Mongo.dateToString t = Mongo.dateToString (t / 86400000 * 86400000).
Proof.
  intro t. unfold Mongo.dateToString. now rewrite Z.div_mul.
Qed.

Lemma days_of_2024_distinct :
  NoDup (map (fun n => Mongo.dateToString (n * 86400000))
           (map (fun i => 19723 + Z.of_nat i) (seq 0 366)))
  /\ forallb (fun n => String.prefix "2024-" (Mongo.dateToString (n * 86400000)))
       (map (fun i => 19723 + Z.of_nat i) (seq 0 366)) = true.
Proof.
  split.
  - assert (E : nodup string_dec
                  (map (fun n => Mongo.dateToString (n * 86400000))
                     (map (fun i => 19723 + Z.of_nat i) (seq 0 366)))
                = map (fun n => Mongo.dateToString (n * 86400000))
                    (map (fun i => 19723 + Z.of_nat i) (seq 0 366)))
      by (vm_compute; reflexivity).
    rewrite <- E. apply NoDup_nodup.
  - vm_compute. reflexivity.
Qed.

Lemma filtered_day_in_2024 : forall d : PlayRecord,
  Mongo.matches filter d = true ->
  In (ts d / 86400000) (map (fun i => 19723 + Z.of_nat i) (seq 0 366)).
Proof.
  intros d M. apply matches_filter_iff in M. destruct M as [_ [_ [_ [Lo Hi]]]].
  assert (B : 19723 <= ts d / 86400000 < 20089).
  { split.
    - apply Z.div_le_lower_bound; lia.
    - apply Z.div_lt_upper_bound; lia. }
  apply in_map_iff. exists (Z.to_nat (ts d / 86400000 - 19723)). split.
  - lia.
  - apply in_seq. lia.
Qed.

(** Two filtered records are in the same group of the day reports exactly
    when their time stamps lie in the same UTC day, and every day key of
    the reports starts with [2024-]. *)
Theorem day_groups_are_utc_days : forall d1 d2 : PlayRecord,
  Mongo.matches filter d1 = true ->
  Mongo.matches filter d2 = true ->
  (day_of d1 = day_of d2 <-> ts d1 / 86400000 = ts d2 / 86400000)
  /\ String.prefix "2024-" (day_of d1) = true.
Proof.
  intros d1 d2 M1 M2. destruct days_of_2024_distinct as [ND P].
  pose proof (filtered_day_in_2024 d1 M1) as I1.
  pose proof (filtered_day_in_2024 d2 M2) as I2.
  unfold day_of. rewrite (dateToString_day (ts d1)), (dateToString_day (ts d2)).
  split.
  - split.
    + intro E.
      apply (NoDup_map_injective _ _
               (fun n => Mongo.dateToString (n * 86400000)) _ _ _ ND I1 I2 E).
    + intros ->. reflexivity.
  - rewrite forallb_forall in P. now apply (P _ I1).
Qed.

Lemma day_groups_are_utc_days_witness :
  Mongo.matches filter tie_play = true
  /\ Mongo.matches filter
       (play (june_23 + 86399999) 40000 "Track B" "Artist 2" "Album Y"
          "spotify:track:B" false) = true
  /\ (day_of tie_play
      = day_of (play (june_23 + 86399999) 40000 "Track B" "Artist 2" "Album Y"
                  "spotify:track:B" false)
      <-> ts tie_play / 86400000
          = ts (play (june_23 + 86399999) 40000 "Track B" "Artist 2" "Album Y"
                  "spotify:track:B" false) / 86400000).
Proof.
  split; [reflexivity|]. split; [reflexivity|].
  apply (day_groups_are_utc_days tie_play
           (play (june_23 + 86399999) 40000 "Track B" "Artist 2" "Album Y"
              "spotify:track:B" false)).
  - reflexivity.
  - reflexivity.
Defined.

(** ** Batches that are not arrays *)

(** For a file that passes the name checks and is not empty: when its
    text decodes to [null], reading [plays.length] throws a [TypeError]
    and the import ends; when it decodes to a number, a boolean or an
    object without a [length] field, [plays.length] is [undefined], which
    is not [0], and the file is logged as inserted with that count. *)
Theorem import_file_on_non_array :
  forall (JSON_parse : string -> option JS.value) (file contents : string)
         (w : World),
    endsWith ".json" file = true ->
    includes "Audio" file = true ->
    contents <> "" ->
    (JSON_parse contents = Some Null ->
     import_file JSON_parse (file, File contents) w
     = (Throw TypeError,
        add_lines [ {| style := Plain;
                       pieces := [Text "processing file"; Text file] |} ] w))
    /\ (forall v : JS.value,
          JSON_parse contents = Some v ->
          (exists b, v = Boolean b) \/ (exists n, v = Number n)
          \/ (exists fields, v = Object fields /\ lookup "length" fields = Undefined) ->
          import_file JSON_parse (file, File contents) w
          = (Ok tt,
             add_lines [ {| style := Plain;
                            pieces := [Text "processing file"; Text file] |};
                         {| style := Plain;
                            pieces := [Text "inserting records"; Val Undefined] |} ]
                       w)).
Proof.
  intros JSON_parse file contents w Hjson Haudio Hne.
  apply String.eqb_neq in Hne.
  unfold import_file. rewrite Hjson, Haudio. cbn [negb orb isDirectory].
  unfold bind, lift, readFileSync, parse. rewrite console_log_run, Hne.
  split.
  - intros ->. reflexivity.
  - intros v -> [[b ->]|[[n ->]|[fields [-> L]]]]; cbn [length_of];
      try rewrite L; cbn [strict_eq_zero];
      rewrite console_log_run, add_lines_add_lines; reflexivity.
Qed.

Lemma import_file_on_non_array_witness :
  endsWith ".json" audio_2024 = true
  /\ includes "Audio" audio_2024 = true
  /\ "null" <> ""
  /\ import_file (fun _ => Some Null) (audio_2024, File "null") one_batch
     = (Throw TypeError,
        add_lines [ {| style := Plain;
                       pieces := [Text "processing file"; Text audio_2024] |} ]
                  one_batch).
Proof.
  split; [reflexivity|]. split; [reflexivity|]. split; [discriminate|].
  apply (import_file_on_non_array (fun _ => Some Null) audio_2024 "null"
           one_batch).
  - reflexivity.
  - reflexivity.
  - discriminate.
  - reflexivity.
Defined.
